(** * active_companies.py: the company-listing scraper, embedded and verified

    The development follows the source file top to bottom:

    - [PyStr]    Python strings and the builtins the scraper calls on them
                 ([str.split], [str.strip], [int]);
    - [Soup]     the part of a parsed table row the scraper reads
                 ([find_all("td")], [find("a")], [get], [get_text(strip=True)]);
    - [Scraper]  [get_regulatory_body], the row-to-record mapping of the
                 extraction loop, [init_driver] and [get_companies], run
                 against a scripted browser session;
    - [Json]     [json.dump(data, f, ensure_ascii=False, indent=2)] and the
                 decoder that reads such a document back.

    The definitions come first; the facts about them, the claims C1 to
    C10 and further properties X1 onwards follow. *)

From Stdlib Require Import List NArith ZArith Bool Arith Lia.
From Stdlib Require String Ascii DecimalFacts DecimalPos DecimalN DecimalZ.
Import ListNotations.
Import String.StringSyntax.
Delimit Scope string_scope with string.

Set Implicit Arguments.

(** ** Results of fallible Python expressions *)

(** The exception classes that the modelled code can meet.  [TimeoutException]
    and [NoSuchElementException] are the two selenium classes the source
    names in its handlers; [WebDriverException] stands for any other error
    of the browser driver.  [ValueError], [IndexError] and [KeyError] are the
    builtin errors of [int], of list indexing and of attribute lookup. *)
Inductive exn : Type :=
| TimeoutException
| NoSuchElementException
| WebDriverException
| ValueError
| IndexError
| KeyError.

Definition exn_eqb (a b : exn) : bool :=
  match a, b with
  | TimeoutException, TimeoutException
  | NoSuchElementException, NoSuchElementException
  | WebDriverException, WebDriverException
  | ValueError, ValueError
  | IndexError, IndexError
  | KeyError, KeyError => true
  | _, _ => false
  end.

Inductive result (A : Type) : Type :=
| Return (a : A)
| Raise (e : exn).

Arguments Return {A} a.
Arguments Raise {A} e.

Definition rbind {A B : Type} (r : result A) (k : A -> result B) : result B :=
  match r with
  | Return a => k a
  | Raise e => Raise e
  end.

Declare Scope res_scope.
Delimit Scope res_scope with res.
Notation "x <- r ;; k" := (rbind r (fun x => k))
  (at level 61, r at next level, right associativity) : res_scope.

(** ** Python strings *)

Module PyStr.

(** A Python [str] is a sequence of Unicode code points. *)
Abbreviation str := (list N).

(** An ASCII literal of the source, as a [str]. *)
Definition py (s : String.string) : str :=
  map Ascii.N_of_ascii (String.list_ascii_of_string s).

Arguments py s%_string.

Fixpoint str_eqb (a b : str) : bool :=
  match a, b with
  | [], [] => true
  | x :: a', y :: b' => N.eqb x y && str_eqb a' b'
  | _, _ => false
  end.

(** Truth value of a [str] in a condition: the empty string is false. *)
Definition str_truthy (s : str) : bool :=
  match s with
  | [] => false
  | _ :: _ => true
  end.

(** Truth value of an optional string ([None] is false). *)
Definition opt_truthy (o : option str) : bool :=
  match o with
  | None => false
  | Some s => str_truthy s
  end.

Definition SLASH : N := 47.
Definition PLUS : N := 43.
Definition MINUS : N := 45.
Definition UNDERSCORE : N := 95.
Definition SPACE : N := 32.
Definition QUESTION : N := 63.
Definition ZERO : N := 48.

(** [s.split(sep)] for a one-character separator: the pieces between the
    occurrences of [sep], of which there is always at least one. *)
Fixpoint split (sep : N) (s : str) : list str :=
  match s with
  | [] => [[]]
  | c :: s' =>
      if N.eqb c sep then [] :: split sep s'
      else match split sep s' with
           | seg :: segs => (c :: seg) :: segs
           | [] => [[c]]
           end
  end.

(** [l[-1]]: the last element, [IndexError] on an empty list. *)
Definition getitem_last {A : Type} (l : list A) : result A :=
  match rev l with
  | x :: _ => Return x
  | [] => Raise IndexError
  end.

(** [l[i]] for a non-negative index. *)
Definition getitem {A : Type} (l : list A) (i : nat) : result A :=
  match nth_error l i with
  | Some x => Return x
  | None => Raise IndexError
  end.

(** *** Character classes *)

(** [Py_ISSPACE], the C-locale test that [int] applies to the characters
    of its argument: tab, newline, vertical tab, form feed, carriage return
    and space. *)
Definition Py_ISSPACE (c : N) : bool :=
  ((9 <=? c) && (c <=? 13))%N || N.eqb c SPACE.

(** The code points with the Unicode whitespace property or a bidirectional
    type of B, S or WS: what [str.isspace] and [str.strip] go by. *)
Definition unicode_whitespace : list N :=
  [9; 10; 11; 12; 13; 28; 29; 30; 31; 32; 133; 160; 5760; 8192; 8193; 8194;
   8195; 8196; 8197; 8198; 8199; 8200; 8201; 8202; 8232; 8233; 8239; 8287;
   12288]%N.

Definition Py_UNICODE_ISSPACE (c : N) : bool :=
  existsb (N.eqb c) unicode_whitespace.

(** The digit zero of every decimal-digit run (general category Nd) of the
    Unicode character database, version 14.0; each run is ten consecutive
    code points, zero to nine. *)
Definition unicode_decimal_zeros : list N :=
  [48; 1632; 1776; 1984; 2406; 2534; 2662; 2790; 2918; 3046; 3174; 3302;
   3430; 3558; 3664; 3792; 3872; 4160; 4240; 6112; 6160; 6470; 6608; 6784;
   6800; 6992; 7088; 7232; 7248; 42528; 43216; 43264; 43472; 43504; 43600;
   44016; 65296; 66720; 68912; 69734; 69872; 69942; 70096; 70384; 70736;
   70864; 71248; 71360; 71472; 71904; 72016; 72784; 73040; 73120; 92768;
   92864; 93008; 120782; 120792; 120802; 120812; 120822; 123200; 123632;
   125264; 130032]%N.

(** [Py_UNICODE_TODECIMAL]: the decimal value of a digit, [None] for any
    other character. *)
Definition Py_UNICODE_TODECIMAL (c : N) : option N :=
  match find (fun z => (z <=? c) && (c <? z + 10))%N unicode_decimal_zeros with
  | Some z => Some (c - z)%N
  | None => None
  end.

(** *** [str.strip()] *)

Fixpoint lstrip (s : str) : str :=
  match s with
  | c :: s' => if Py_UNICODE_ISSPACE c then lstrip s' else s
  | [] => []
  end.

Definition rstrip (s : str) : str := rev (lstrip (rev s)).

Definition strip (s : str) : str := rstrip (lstrip s).

(** *** [int(s)] *)

(** First pass of [int] on a [str]: a string that is all ASCII is taken as
    it is; otherwise every character from 127 up is replaced, a space by
    [' '] and a decimal digit by its ASCII digit, and the string is cut
    after a ['?'] at the first character that is neither. *)
Fixpoint transform_decimal_and_space (s : str) : str :=
  match s with
  | [] => []
  | c :: s' =>
      if (c <? 127)%N then c :: transform_decimal_and_space s'
      else if Py_UNICODE_ISSPACE c then SPACE :: transform_decimal_and_space s'
      else match Py_UNICODE_TODECIMAL c with
           | Some d => (ZERO + d)%N :: transform_decimal_and_space s'
           | None => [QUESTION]
           end
  end.

Definition is_ascii (s : str) : bool := forallb (fun c => (c <? 128)%N) s.

Definition to_ascii_digits (s : str) : str :=
  if is_ascii s then s else transform_decimal_and_space s.

Fixpoint skip_spaces (s : str) : str :=
  match s with
  | c :: s' => if Py_ISSPACE c then skip_spaces s' else s
  | [] => []
  end.

Definition is_digit (c : N) : bool := ((ZERO <=? c) && (c <=? 57))%N.

(** The decimal digits of a literal: digits, with single underscores
    allowed between two digits only.  [prev] is the character just read
    ([None] before the first one), [acc] the value so far.  The result is
    the value and the rest of the input, or [None] when the literal is
    empty or an underscore is misplaced. *)
Definition end_digits (prev : option N) (acc : N) (rest : str)
  : option (N * str) :=
  match prev with
  | None => None
  | Some p => if N.eqb p UNDERSCORE then None else Some (acc, rest)
  end.

Fixpoint scan_digits (prev : option N) (acc : N) (s : str)
  : option (N * str) :=
  match s with
  | [] => end_digits prev acc []
  | c :: s' =>
      if is_digit c then scan_digits (Some c) (10 * acc + (c - ZERO))%N s'
      else if N.eqb c UNDERSCORE then
        match prev with
        | None => None
        | Some p =>
            if N.eqb p UNDERSCORE then None
            else scan_digits (Some c) acc s'
        end
      else end_digits prev acc s
  end.

(** The number of digits of a literal: those of its run of digits and
    underscores, the leading zeros among them. *)
Fixpoint count_digits (s : str) : nat :=
  match s with
  | c :: s' =>
      if is_digit c then S (count_digits s')
      else if N.eqb c UNDERSCORE then count_digits s'
      else 0
  | [] => 0
  end.

(** The value of [sys.get_int_max_str_digits()] in an interpreter started,
    as the script is, with no setting of its own: a literal of more digits
    is refused. *)
Definition MAX_STR_DIGITS : nat := 4300.

(** [int(s)] in base ten: optional surrounding whitespace, an optional
    sign, a run of at most [MAX_STR_DIGITS] digits, and nothing else;
    [ValueError] otherwise. *)
Definition int (s : str) : result Z :=
  let a := skip_spaces (to_ascii_digits s) in
  let '(negative, digits) :=
    match a with
    | c :: a' =>
        if N.eqb c PLUS then (false, a')
        else if N.eqb c MINUS then (true, a')
        else (false, a)
    | [] => (false, a)
    end in
  match scan_digits None 0%N digits with
  | Some (n, rest) =>
      if Nat.ltb MAX_STR_DIGITS (count_digits digits) then Raise ValueError
      else
        match skip_spaces rest with
        | [] => Return (if negative then (- Z.of_N n)%Z else Z.of_N n)
        | _ :: _ => Raise ValueError
        end
  | None => Raise ValueError
  end.

End PyStr.

Import PyStr.

(** ** The parsed table *)

Module Soup.

(** An [<a>] element, by the value of its [href] attribute, if it has one. *)
Record a_tag : Type := { href : option str }.

(** [link.get("href")] *)
Definition get_href (link : a_tag) : option str := href link.

(** [link["href"]] *)
Definition getitem_href (link : a_tag) : result str :=
  match href link with
  | Some h => Return h
  | None => Raise KeyError
  end.

(** A [<td>] element: the text strings below it, in document order, and the
    first [<a>] element below it, if any. *)
Record td : Type := { strings : list str; first_a : option a_tag }.

(** [cell.find("a")] *)
Definition find_a (cell : td) : option a_tag := first_a cell.

(** [cell.get_text(strip=True)]: every string stripped, the empty ones
    dropped, the rest joined with no separator. *)
Definition get_text_strip (cell : td) : str :=
  concat (filter str_truthy (map strip (strings cell))).

(** A [<tr>] element, by the [<td>] elements below it. *)
Definition tr : Type := list td.

(** [row.find_all("td")] *)
Definition find_all_td (row : tr) : list td := row.

End Soup.

Import Soup.

(** ** The scraper *)

Module Scraper.

Definition BASE_URL : str := py "https://nepalstock.com".

Definition PULL_LATEST : bool := true.

(** One entry of [companies]: the dictionary built in the extraction loop,
    with its keys in the order of the literal. *)
Record company : Type := {
  id : option Z;
  companyName : str;
  symbol : str;
  securityName : str;
  status : str;
  sectorName : str;
  instrumentType : str;
  companyEmail : str;
  website : str;
  regulatoryBody : str
}.

Definition get_regulatory_body (sector_name : str) : str := py "SEBON".

(** [link["href"].split("/")[-1] if link and link.get("href") else None] *)
Definition company_id_of (link : option a_tag) : result (option str) :=
  match link with
  | Some a =>
      if opt_truthy (get_href a) then
        (h <- getitem_href a ;;
         seg <- getitem_last (split SLASH h) ;;
         Return (Some seg))%res
      else Return None
  | None => Return None
  end.

(** [int(company_id) if company_id else None] *)
Definition id_of (company_id : option str) : result (option Z) :=
  if opt_truthy company_id then
    match company_id with
    | Some s => (n <- int s ;; Return (Some n))%res
    | None => Return None
    end
  else Return None.

(** The body of [for row in rows]: [Return None] is the [continue] of a
    short row, [Return (Some c)] the dictionary that is appended. *)
Definition extract_row (row : tr) : result (option company) :=
  let cols := find_all_td row in
  if length cols <? 8 then Return None
  else
    (c1 <- getitem cols 1 ;;
     let link := find_a c1 in
     company_id <- company_id_of link ;;
     c4 <- getitem cols 4 ;;
     let sector_name := get_text_strip c4 in
     v_id <- id_of company_id ;;
     n1 <- getitem cols 1 ;;
     c2 <- getitem cols 2 ;;
     s1 <- getitem cols 1 ;;
     c3 <- getitem cols 3 ;;
     c5 <- getitem cols 5 ;;
     c6 <- getitem cols 6 ;;
     c7 <- getitem cols 7 ;;
     Return (Some {|
       id := v_id;
       companyName := get_text_strip n1;
       symbol := get_text_strip c2;
       securityName := get_text_strip s1;
       status := get_text_strip c3;
       sectorName := sector_name;
       instrumentType := get_text_strip c5;
       companyEmail := get_text_strip c6;
       website := get_text_strip c7;
       regulatoryBody := get_regulatory_body sector_name
     |}))%res.

(** *** The browser session *)

(** What the browser shows while one page of the table is current: the
    outcome of the wait for the table, the rows that [soup.select("tbody
    tr")] finds in [driver.page_source], and the outcome of looking for the
    next-page link, which, when found, comes with the outcome of a click on
    it. *)
Record page : Type := {
  table : result unit;
  source : result (list tr);
  next_btn : result (result unit)
}.

(** A browser session, by the outcome of every call the scraper makes on
    it: starting Chrome, the devtools command of [init_driver], opening the
    URL, the wait for the page-size dropdown (and, when it is found, the
    selection of an option in it), the pages of the table in the order the
    next-page link leads through them, numbered from 1, and closing the
    browser. *)
Record session : Type := {
  chrome : result unit;
  cdp : result unit;
  navigate : result unit;
  page_size_select : result (result unit);
  pages : nat -> page;
  quit : result unit
}.

Inductive By : Type := By_XPATH | By_TAG_NAME | By_CSS_SELECTOR.

(** The calls that reach outside the process, as they are logged. *)
Inductive event : Type :=
| WebdriverChrome
| ExecuteCdpCmd
| DriverGet (url : str)
| WaitUntilPresent (how : By) (what : str)
| SelectByValue (value : str)
| TimeSleep (seconds : nat)
| DriverPageSource
| PrintScraped (page_no : nat)
| PrintFetched (count : nat)
| DriverFindElement (how : By) (what : str)
| ElementClick
| DriverQuit.

(** The state a run goes through: the two variables that [get_companies]
    assigns more than once, the number of the page the browser shows, and
    the log of the calls made so far, oldest first. *)
Record state : Type := {
  companies : list company;
  page_no : nat;
  shown : nat;
  log : list event
}.

Definition initial : state :=
  {| companies := []; page_no := 0; shown := 1; log := [] |}.

(** A statement of the scraper: from a state, either it does not finish
    ([None]: the loop outlives the fuel it was given), or it returns or
    raises, in a new state. *)
Definition M (A : Type) : Type := state -> option (result A * state).

Definition ret {A : Type} (a : A) : M A := fun st => Some (Return a, st).

Definition raise {A : Type} (e : exn) : M A := fun st => Some (Raise e, st).

Definition bind {A B : Type} (m : M A) (k : A -> M B) : M B :=
  fun st =>
    match m st with
    | Some (Return a, st') => k a st'
    | Some (Raise e, st') => Some (Raise e, st')
    | None => None
    end.

Declare Scope m_scope.
Delimit Scope m_scope with M.
Notation "x <- m ;; k" := (bind m (fun x => k))
  (at level 61, m at next level, right associativity) : m_scope.
Notation "m ;; k" := (bind m (fun _ => k))
  (at level 61, right associativity) : m_scope.

(** A pure expression evaluated inside a statement. *)
Definition lift {A : Type} (r : result A) : M A := fun st => Some (r, st).

(** A call on the outside world: logged, with the outcome the session
    dictates. *)
Definition call {A : Type} (ev : event) (r : result A) : M A :=
  fun st =>
    Some (r, {| companies := companies st; page_no := page_no st;
                shown := shown st; log := log st ++ [ev] |}).

(** [try: body except <classes>: handler] *)
Definition try_except {A : Type} (body : M A) (catches : exn -> bool)
  (handler : M A) : M A :=
  fun st =>
    match body st with
    | Some (Raise e, st') =>
        if catches e then handler st' else Some (Raise e, st')
    | other => other
    end.

(** [try: body finally: cleanup]: the cleanup runs however the body ends;
    an exception of the cleanup replaces the outcome of the body. *)
Definition try_finally {A : Type} (body : M A) (cleanup : M unit) : M A :=
  fun st =>
    match body st with
    | Some (r, st') =>
        match cleanup st' with
        | Some (Return _, st'') => Some (r, st'')
        | Some (Raise e, st'') => Some (Raise e, st'')
        | None => None
        end
    | None => None
    end.

Inductive ctl : Type := Break | Continue.

(** [while True: body], where the body says how it ended. *)
Fixpoint while_true (fuel : nat) (body : M ctl) : M unit :=
  match fuel with
  | O => fun _ => None
  | S fuel' =>
      (c <- body ;;
       match c with
       | Break => ret tt
       | Continue => while_true fuel' body
       end)%M
  end.

(** [for x in xs: body x] *)
Fixpoint for_each {A : Type} (xs : list A) (body : A -> M unit) : M unit :=
  match xs with
  | [] => ret tt
  | x :: xs' => (body x ;; for_each xs' body)%M
  end.

(** The exception classes of the three handlers. *)
Definition is_Exception (e : exn) : bool := true.
Definition is_NoSuchElementException (e : exn) : bool :=
  exn_eqb e NoSuchElementException.
Definition is_TimeoutException (e : exn) : bool :=
  exn_eqb e TimeoutException.

(** Assignments to the variables of [get_companies]. *)
Definition set_companies (cs : list company) : M unit :=
  fun st => Some (Return tt, {| companies := cs; page_no := page_no st;
                                shown := shown st; log := log st |}).

Definition set_page_no (n : nat) : M unit :=
  fun st => Some (Return tt, {| companies := companies st; page_no := n;
                                shown := shown st; log := log st |}).

Definition get_companies_var : M (list company) :=
  fun st => Some (Return (companies st), st).

Definition get_page_no : M nat := fun st => Some (Return (page_no st), st).

(** The page the browser shows. *)
Definition current (w : session) : M page :=
  fun st => Some (Return (pages w (shown st)), st).

(** A click that goes through brings up the next page. *)
Definition turn_page : M unit :=
  fun st => Some (Return tt, {| companies := companies st;
                                page_no := page_no st;
                                shown := S (shown st); log := log st |}).

(** *** [init_driver] *)

(** The options only configure the browser; the calls that can fail are
    the start of Chrome and the devtools command, whose failure is
    passed over. *)
Definition init_driver (w : session) : M unit :=
  (call WebdriverChrome (chrome w) ;;
   try_except
     (call ExecuteCdpCmd (cdp w))
     is_Exception
     (ret tt))%M.

(** *** [get_companies] *)

Definition PAGE_SIZE_XPATH : str :=
  py "//select[.//option[@value='500' and normalize-space(.)='500']]".

(** [companies.append({...})] for one row, or [continue]. *)
Definition scrape_row (row : tr) : M unit :=
  (r <- lift (extract_row row) ;;
   match r with
   | None => ret tt
   | Some c =>
       cs <- get_companies_var ;;
       set_companies (cs ++ [c])
   end)%M.

(** One turn of the [while True] loop. *)
Definition scrape_page (w : session) : M ctl :=
  try_except
    (p <- current w ;;
     call (WaitUntilPresent By_TAG_NAME (py "table")) (table p) ;;
     rows <- call DriverPageSource (source p) ;;
     for_each rows scrape_row ;;
     n <- get_page_no ;;
     call (PrintScraped n) (Return tt) ;;
     set_page_no (n + 1) ;;
     try_except
       (next <- call (DriverFindElement By_CSS_SELECTOR
                        (py "li.pagination-next a")) (next_btn p) ;;
        call ElementClick next ;;
        turn_page ;;
        call (TimeSleep 3) (Return tt) ;;
        ret Continue)
       is_NoSuchElementException
       (ret Break))%M
    is_TimeoutException
    (ret Break).

Definition get_companies (fuel : nat) (w : session) (pull_latest : bool)
  : M (list company) :=
  if negb pull_latest then ret []
  else
    let url := BASE_URL ++ py "/company" in
    (init_driver w ;;
     set_companies [] ;;
     set_page_no 1 ;;
     try_finally
       (call (DriverGet url) (navigate w) ;;
        select <- call (WaitUntilPresent By_XPATH PAGE_SIZE_XPATH)
                    (page_size_select w) ;;
        call (SelectByValue (py "500")) select ;;
        call (TimeSleep 2) (Return tt) ;;
        while_true fuel (scrape_page w) ;;
        cs <- get_companies_var ;;
        call (PrintFetched (length cs)) (Return tt) ;;
        ret cs)
       (call DriverQuit (quit w)))%M.

End Scraper.

Import Scraper.

(** ** JSON *)

Module Json.

(** The Python values that [json.dump] is given and that the decoder
    gives back: [None], booleans, integers, strings, lists, and
    dictionaries with string keys, as their items in insertion order.
    Floats are left out. *)
#[warnings="-register-all"] Inductive json : Type :=
| JNull
| JBool (b : bool)
| JInt (n : Z)
| JStr (s : str)
| JList (items : list json)
| JDict (items : list (str * json)).

Definition QUOTE : N := 34.
Definition BACKSLASH : N := 92.
Definition COMMA : N := 44.
Definition COLON : N := 58.
Definition LBRACKET : N := 91.
Definition RBRACKET : N := 93.
Definition LBRACE : N := 123.
Definition RBRACE : N := 125.
Definition NEWLINE : N := 10.
Definition DOT : N := 46.
Definition LOWER_U : N := 117.

(** *** [data], as a Python value *)

Definition company_to_json (c : company) : json :=
  JDict [
    (py "id", match id c with Some n => JInt n | None => JNull end);
    (py "companyName", JStr (companyName c));
    (py "symbol", JStr (symbol c));
    (py "securityName", JStr (securityName c));
    (py "status", JStr (status c));
    (py "sectorName", JStr (sectorName c));
    (py "instrumentType", JStr (instrumentType c));
    (py "companyEmail", JStr (companyEmail c));
    (py "website", JStr (website c));
    (py "regulatoryBody", JStr (regulatoryBody c))
  ].

Definition to_json (data : list company) : json :=
  JList (map company_to_json data).

(** *** The encoder: [json.dump(data, f, ensure_ascii=False, indent=2)] *)

Definition hex_digit (d : N) : N :=
  (if d <? 10 then ZERO + d else 87 + d)%N.

(** The replacement of one character inside a string: short escapes for
    the quote, the backslash and five control characters, a [\u00XX]
    escape for the other characters below the space, and the character
    itself, ASCII or not, for all the rest. *)
Definition escape_char (c : N) : str :=
  if N.eqb c QUOTE then [BACKSLASH; QUOTE]
  else if N.eqb c BACKSLASH then [BACKSLASH; BACKSLASH]
  else if N.eqb c 10 then [BACKSLASH; 110%N]
  else if N.eqb c 13 then [BACKSLASH; 114%N]
  else if N.eqb c 9 then [BACKSLASH; 116%N]
  else if N.eqb c 8 then [BACKSLASH; 98%N]
  else if N.eqb c 12 then [BACKSLASH; 102%N]
  else if (c <? 32)%N then
    [BACKSLASH; LOWER_U; ZERO; ZERO; hex_digit (c / 16); hex_digit (c mod 16)]
  else [c].

Definition encode_basestring (s : str) : str :=
  [QUOTE] ++ flat_map escape_char s ++ [QUOTE].

Fixpoint uint_chars (u : Decimal.uint) : str :=
  match u with
  | Decimal.Nil => []
  | Decimal.D0 u' => 48%N :: uint_chars u'
  | Decimal.D1 u' => 49%N :: uint_chars u'
  | Decimal.D2 u' => 50%N :: uint_chars u'
  | Decimal.D3 u' => 51%N :: uint_chars u'
  | Decimal.D4 u' => 52%N :: uint_chars u'
  | Decimal.D5 u' => 53%N :: uint_chars u'
  | Decimal.D6 u' => 54%N :: uint_chars u'
  | Decimal.D7 u' => 55%N :: uint_chars u'
  | Decimal.D8 u' => 56%N :: uint_chars u'
  | Decimal.D9 u' => 57%N :: uint_chars u'
  end.

(** [int.__repr__]: the decimal digits, after a minus sign if negative
    (as for [int], at any size). *)
Definition repr_int (n : Z) : str :=
  match Z.to_int n with
  | Decimal.Pos u => uint_chars u
  | Decimal.Neg u => MINUS :: uint_chars u
  end.

(** A line break and the indentation of a nesting level, two spaces each. *)
Definition newline_indent (level : nat) : str :=
  NEWLINE :: repeat SPACE (2 * level).

(** [sep.join(chunks)] *)
Fixpoint join (sep : str) (chunks : list str) : str :=
  match chunks with
  | [] => []
  | [x] => x
  | x :: rest => x ++ sep ++ join sep rest
  end.

(** The text of a value at a nesting level: the items of a non-empty list
    or dictionary each on a line of their own, one level deeper, with a
    comma after each but the last, and the closing bracket on a line at the
    level of the value. *)
Fixpoint encode (level : nat) (v : json) : str :=
  match v with
  | JNull => py "null"
  | JBool true => py "true"
  | JBool false => py "false"
  | JInt n => repr_int n
  | JStr s => encode_basestring s
  | JList [] => py "[]"
  | JList items =>
      [LBRACKET] ++ newline_indent (S level) ++
      join (COMMA :: newline_indent (S level))
        (map (encode (S level)) items) ++
      newline_indent level ++ [RBRACKET]
  | JDict [] => py "{}"
  | JDict items =>
      [LBRACE] ++ newline_indent (S level) ++
      join (COMMA :: newline_indent (S level))
        (map (fun kv => match kv with
                        | (k, x) =>
                            encode_basestring k ++ [COLON; SPACE] ++
                            encode (S level) x
                        end) items) ++
      newline_indent level ++ [RBRACE]
  end.

(** The text that [json.dump] hands to the output file, which is opened
    as UTF-8 text; the bytes of the file are not part of the model. *)
Definition dump (data : list company) : str := encode 0 (to_json data).

(** *** The decoder: [json.load] *)

Definition is_ws (c : N) : bool :=
  N.eqb c 32 || N.eqb c 9 || N.eqb c 10 || N.eqb c 13.

Fixpoint skip_ws (s : str) : str :=
  match s with
  | c :: s' => if is_ws c then skip_ws s' else s
  | [] => []
  end.

Definition hex_value (c : N) : option N :=
  if ((48 <=? c) && (c <=? 57))%N then Some (c - 48)%N
  else if ((97 <=? c) && (c <=? 102))%N then Some (c - 87)%N
  else if ((65 <=? c) && (c <=? 70))%N then Some (c - 55)%N
  else None.

Definition hex4 (a b c d : N) : option N :=
  match hex_value a, hex_value b, hex_value c, hex_value d with
  | Some x, Some y, Some z, Some w => Some (((x * 16 + y) * 16 + z) * 16 + w)%N
  | _, _, _, _ => None
  end.

Definition is_high_surrogate (u : N) : bool :=
  ((55296 <=? u) && (u <=? 56319))%N.

Definition is_low_surrogate (u : N) : bool :=
  ((56320 <=? u) && (u <=? 57343))%N.

Definition join_surrogates (hi lo : N) : N :=
  (65536 + ((hi - 55296) * 1024 + (lo - 56320)))%N.

(** The character that a one-letter escape stands for. *)
Definition unescape (e : N) : option N :=
  if N.eqb e QUOTE then Some QUOTE
  else if N.eqb e BACKSLASH then Some BACKSLASH
  else if N.eqb e SLASH then Some SLASH
  else if N.eqb e 98 then Some 8%N
  else if N.eqb e 102 then Some 12%N
  else if N.eqb e 110 then Some 10%N
  else if N.eqb e 114 then Some 13%N
  else if N.eqb e 116 then Some 9%N
  else None.

(** The content of a string, from just after its opening quote: the
    decoded characters (added to [acc], oldest first) and what follows the
    closing quote.  Control characters must be escaped; a [\u] escape of a
    high surrogate followed by one of a low surrogate makes one
    character. *)
Fixpoint scanstring (s : str) (acc : str) : option (str * str) :=
  match s with
  | [] => None
  | c :: s1 =>
      if N.eqb c QUOTE then Some (acc, s1)
      else if N.eqb c BACKSLASH then
        match s1 with
        | [] => None
        | e :: s2 =>
            if N.eqb e LOWER_U then
              match s2 with
              | h1 :: h2 :: h3 :: h4 :: s3 =>
                  match hex4 h1 h2 h3 h4 with
                  | None => None
                  | Some u =>
                      if is_high_surrogate u then
                        match s3 with
                        | b :: v :: g1 :: g2 :: g3 :: g4 :: s4 =>
                            if N.eqb b BACKSLASH && N.eqb v LOWER_U then
                              match hex4 g1 g2 g3 g4 with
                              | None => None
                              | Some u2 =>
                                  if is_low_surrogate u2 then
                                    scanstring s4
                                      (acc ++ [join_surrogates u u2])
                                  else scanstring s3 (acc ++ [u])
                              end
                            else scanstring s3 (acc ++ [u])
                        | _ => scanstring s3 (acc ++ [u])
                        end
                      else scanstring s3 (acc ++ [u])
                  end
              | _ => None
              end
            else
              match unescape e with
              | Some c' => scanstring s2 (acc ++ [c'])
              | None => None
              end
        end
      else if (c <? 32)%N then None
      else scanstring s1 (acc ++ [c])
  end.

Definition digit_of (c : N) : option (Decimal.uint -> Decimal.uint) :=
  if N.eqb c 48 then Some Decimal.D0
  else if N.eqb c 49 then Some Decimal.D1
  else if N.eqb c 50 then Some Decimal.D2
  else if N.eqb c 51 then Some Decimal.D3
  else if N.eqb c 52 then Some Decimal.D4
  else if N.eqb c 53 then Some Decimal.D5
  else if N.eqb c 54 then Some Decimal.D6
  else if N.eqb c 55 then Some Decimal.D7
  else if N.eqb c 56 then Some Decimal.D8
  else if N.eqb c 57 then Some Decimal.D9
  else None.

(** The longest run of digits at the head of the input. *)
Fixpoint scan_uint (s : str) : Decimal.uint * str :=
  match s with
  | [] => (Decimal.Nil, [])
  | c :: s' =>
      match digit_of c with
      | Some d => let '(u, rest) := scan_uint s' in (d u, rest)
      | None => (Decimal.Nil, s)
      end
  end.

(** What makes a number a float: after the integer part, a dot and a digit,
    or an exponent mark, an optional sign and a digit. *)
Definition float_follows (s : str) : bool :=
  match s with
  | c :: d :: rest =>
      if N.eqb c DOT then is_digit d
      else if N.eqb c 101 || N.eqb c 69 then
        if N.eqb d PLUS || N.eqb d MINUS then
          match rest with
          | d' :: _ => is_digit d'
          | [] => false
          end
        else is_digit d
      else false
  | _ => false
  end.

(** A number: an optional minus sign, then a single zero or a run of
    digits that does not start with zero.  A float is given up on. *)
Definition match_number (s : str) : option (json * str) :=
  let '(negative, s1) :=
    match s with
    | c :: s' => if N.eqb c MINUS then (true, s') else (false, s)
    | [] => (false, s)
    end in
  match s1 with
  | [] => None
  | c :: s2 =>
      let '(u, rest) :=
        if N.eqb c ZERO then (Decimal.D0 Decimal.Nil, s2) else scan_uint s1 in
      match u with
      | Decimal.Nil => None
      | _ =>
          if float_follows rest then None
          else
            Some (JInt (Z.of_int (if negative then Decimal.Neg u
                                  else Decimal.Pos u)), rest)
      end
  end.

Fixpoint starts_with (prefix s : str) : bool :=
  match prefix, s with
  | [], _ => true
  | p :: prefix', c :: s' => N.eqb p c && starts_with prefix' s'
  | _ :: _, [] => false
  end.

(** [d[k] = v] on the items of a dictionary: a key that is there keeps its
    place and takes the new value, a new key goes to the end. *)
Fixpoint dict_set (items : list (str * json)) (k : str) (v : json)
  : list (str * json) :=
  match items with
  | [] => [(k, v)]
  | (k', v') :: rest =>
      if str_eqb k' k then (k', v) :: rest
      else (k', v') :: dict_set rest k v
  end.

(** One value at the head of the input, and what follows it.  [fuel]
    bounds the number of nested and repeated steps; [array_items] and
    [object_items] read the items of a list and of a dictionary from the
    first item on, after those in [acc]. *)
Fixpoint scan_once (fuel : nat) (s : str) : option (json * str) :=
  match fuel with
  | O => None
  | S fuel' =>
      match s with
      | [] => None
      | c :: s1 =>
          if N.eqb c QUOTE then
            match scanstring s1 [] with
            | Some (x, rest) => Some (JStr x, rest)
            | None => None
            end
          else if N.eqb c LBRACE then
            match skip_ws s1 with
            | [] => None
            | c' :: s2 =>
                if N.eqb c' RBRACE then Some (JDict [], s2)
                else object_items fuel' (c' :: s2) []
            end
          else if N.eqb c LBRACKET then
            match skip_ws s1 with
            | [] => None
            | c' :: s2 =>
                if N.eqb c' RBRACKET then Some (JList [], s2)
                else array_items fuel' (c' :: s2) []
            end
          else if starts_with (py "null") s then Some (JNull, skipn 4 s)
          else if starts_with (py "true") s then Some (JBool true, skipn 4 s)
          else if starts_with (py "false") s then
            Some (JBool false, skipn 5 s)
          else match_number s
      end
  end

with array_items (fuel : nat) (s : str) (acc : list json)
  : option (json * str) :=
  match fuel with
  | O => None
  | S fuel' =>
      match scan_once fuel' s with
      | None => None
      | Some (x, rest) =>
          match skip_ws rest with
          | [] => None
          | c :: rest' =>
              if N.eqb c RBRACKET then Some (JList (acc ++ [x]), rest')
              else if N.eqb c COMMA then
                array_items fuel' (skip_ws rest') (acc ++ [x])
              else None
          end
      end
  end

with object_items (fuel : nat) (s : str) (acc : list (str * json))
  : option (json * str) :=
  match fuel with
  | O => None
  | S fuel' =>
      match s with
      | [] => None
      | q :: s1 =>
          if N.eqb q QUOTE then
            match scanstring s1 [] with
            | None => None
            | Some (k, rest) =>
                match skip_ws rest with
                | [] => None
                | c :: rest1 =>
                    if N.eqb c COLON then
                      match scan_once fuel' (skip_ws rest1) with
                      | None => None
                      | Some (x, rest2) =>
                          match skip_ws rest2 with
                          | [] => None
                          | d :: rest3 =>
                              if N.eqb d RBRACE then
                                Some (JDict (dict_set acc k x), rest3)
                              else if N.eqb d COMMA then
                                object_items fuel' (skip_ws rest3)
                                  (dict_set acc k x)
                              else None
                          end
                      end
                    else None
                end
            end
          else None
      end
  end.

(** [json.loads]: one value, with nothing but whitespace around it.
    [None] is a decoding error.  The fuel is twice the length of the text
    and two more: of two steps of the decoder that follow each other, one
    at least takes a character off the input.  For the texts that the
    encoder writes, [size_le_length] below shows that this is enough. *)
Definition loads (s : str) : option json :=
  match scan_once (2 * length s + 2) (skip_ws s) with
  | Some (v, rest) =>
      match skip_ws rest with
      | [] => Some v
      | _ :: _ => None
      end
  | None => None
  end.

(** *** Reading the records back *)

(** [d.get(k)] on the items of a dictionary. *)
Fixpoint dict_get (items : list (str * json)) (k : str) : option json :=
  match items with
  | [] => None
  | (k', v) :: rest => if str_eqb k' k then Some v else dict_get rest k
  end.

Definition get_str (items : list (str * json)) (k : String.string)
  : option str :=
  match dict_get items (py k) with
  | Some (JStr s) => Some s
  | _ => None
  end.

Arguments get_str items k%_string.

Definition get_id (items : list (str * json)) : option (option Z) :=
  match dict_get items (py "id") with
  | Some (JInt n) => Some (Some n)
  | Some JNull => Some None
  | _ => None
  end.

(** A decoded dictionary, field for field, as a record. *)
Definition company_of_json (v : json) : option company :=
  match v with
  | JDict items =>
      match get_id items,
            get_str items "companyName", get_str items "symbol",
            get_str items "securityName", get_str items "status",
            get_str items "sectorName", get_str items "instrumentType",
            get_str items "companyEmail", get_str items "website",
            get_str items "regulatoryBody" with
      | Some i, Some a, Some b, Some c, Some d, Some e, Some f, Some g,
        Some h, Some j =>
          Some {| id := i; companyName := a; symbol := b; securityName := c;
                  status := d; sectorName := e; instrumentType := f;
                  companyEmail := g; website := h; regulatoryBody := j |}
      | _, _, _, _, _, _, _, _, _, _ => None
      end
  | _ => None
  end.

Fixpoint all_some {A : Type} (l : list (option A)) : option (list A) :=
  match l with
  | [] => Some []
  | Some x :: l' =>
      match all_some l' with
      | Some xs => Some (x :: xs)
      | None => None
      end
  | None :: _ => None
  end.

Definition of_json (v : json) : option (list company) :=
  match v with
  | JList items => all_some (map company_of_json items)
  | _ => None
  end.

End Json.

Import Json.

(** ** The script *)

(** The top level of the file: [data = get_companies(PULL_LATEST)], then
    the text written to [OUTPUT_JSON]. *)
Definition script (fuel : nat) (w : session) : option (result str * state) :=
  match get_companies fuel w PULL_LATEST initial with
  | Some (Return data, st) => Some (Return (dump data), st)
  | Some (Raise e, st) => Some (Raise e, st)
  | None => None
  end.

(** ** Notions used in the statements *)

(** The rows on which [int] is given something it rejects. *)
Definition bad_id (row : tr) : Prop :=
  exists c0 name rest h seg,
    row = c0 :: name :: rest /\ 6 <= length rest /\
    find_a name = Some {| href := Some h |} /\
    getitem_last (split SLASH h) = Return seg /\
    seg <> [] /\ int seg = Raise ValueError.

(** The records that the row loop appends for the rows of one page, up to
    the first row that raises, with that exception if there is one. *)
Fixpoint extract_page (rows : list tr) : list company * option exn :=
  match rows with
  | [] => ([], None)
  | row :: rows' =>
      match extract_row row with
      | Raise e => ([], Some e)
      | Return None => extract_page rows'
      | Return (Some c) =>
          let '(cs, e) := extract_page rows' in (c :: cs, e)
      end
  end.

(** A state with more records appended to [companies]. *)
Definition appended (st : state) (cs : list company) : state :=
  {| companies := companies st ++ cs; page_no := page_no st;
     shown := shown st; log := log st |}.

Definition is_page_source (ev : event) : bool :=
  match ev with DriverPageSource => true | _ => false end.

Definition is_quit (ev : event) : bool :=
  match ev with DriverQuit => true | _ => false end.

(** Extraction passes of a run: the snapshots of the page it took. *)
Definition extraction_passes (l : list event) : nat :=
  length (filter is_page_source l).

(** How many times a run closed the browser. *)
Definition quits (l : list event) : nat := length (filter is_quit l).

(** A session that gets as far as the loop: Chrome starts, the URL opens,
    the page-size dropdown appears and takes the value. *)
Definition opens (w : session) : Prop :=
  chrome w = Return tt /\ navigate w = Return tt /\
  page_size_select w = Return (Return tt).

(** Page [i] of the session renders and its rows are extracted to [cs]. *)
Definition renders (w : session) (i : nat) (cs : list company) : Prop :=
  table (pages w i) = Return tt /\
  exists rows, source (pages w i) = Return rows /\
               extract_page rows = (cs, None).

(** Page [i] has a next-page link, and the click on it goes through. *)
Definition has_next (w : session) (i : nat) : Prop :=
  next_btn (pages w i) = Return (Return tt).

(** Page [i] has no next-page link. *)
Definition is_last (w : session) (i : nat) : Prop :=
  next_btn (pages w i) = Raise NoSuchElementException.

(** The state of a run when it enters the loop. *)
Definition at_loop : state :=
  {| companies := []; page_no := 1; shown := 1;
     log := [WebdriverChrome; ExecuteCdpCmd;
             DriverGet (BASE_URL ++ py "/company");
             WaitUntilPresent By_XPATH PAGE_SIZE_XPATH;
             SelectByValue (py "500"); TimeSleep 2] |}.

(** The same session with another outcome of the devtools command. *)
Definition with_cdp (w : session) (r : result unit) : session :=
  {| chrome := chrome w; cdp := r; navigate := navigate w;
     page_size_select := page_size_select w; pages := pages w;
     quit := quit w |}.

(** What follows the setting of the page size, inside the [try]. *)
Definition loop_and_return (fuel : nat) (w : session) : M (list company) :=
  (while_true fuel (scrape_page w) ;;
   cs <- get_companies_var ;;
   call (PrintFetched (length cs)) (Return tt) ;;
   ret cs)%M.

(** A statement that does not close the browser. *)
Definition quiet {A : Type} (m : M A) : Prop :=
  forall st r st', m st = Some (r, st') -> quits (log st') = quits (log st).

(** The whole [try] block. *)
Definition try_block (fuel : nat) (w : session) : M (list company) :=
  (call (DriverGet (BASE_URL ++ py "/company")) (navigate w) ;;
   select <- call (WaitUntilPresent By_XPATH PAGE_SIZE_XPATH)
               (page_size_select w) ;;
   call (SelectByValue (py "500")) select ;;
   call (TimeSleep 2) (Return tt) ;;
   loop_and_return fuel w)%M.

(** The state of a run when it enters the [try] block. *)
Definition at_try : state :=
  {| companies := []; page_no := 1; shown := 1;
     log := [WebdriverChrome; ExecuteCdpCmd] |}.

(** A string that neither begins nor ends with whitespace. *)
Definition unpadded (t : str) : bool :=
  andb
    (match t with
     | [] => true
     | c :: _ => negb (Py_UNICODE_ISSPACE c)
     end)
    (match rev t with
     | [] => true
     | c :: _ => negb (Py_UNICODE_ISSPACE c)
     end).

(** [t] is [s] without the whitespace at its two ends. *)
Definition stripped_of (s t : str) : Prop :=
  exists p q,
    s = p ++ t ++ q /\
    forallb Py_UNICODE_ISSPACE p = true /\
    forallb Py_UNICODE_ISSPACE q = true /\
    unpadded t = true.

(** The stripped text of a cell: the strings below it, each without the
    whitespace at its two ends, one after the other. *)
Definition stripped_text (c : td) (t : str) : Prop :=
  exists ts, Forall2 stripped_of (strings c) ts /\ t = concat ts.

(** Sample rows and sessions, for the examples. *)
Module Samples.

Definition cell (s : String.string) : td :=
  {| strings := [py s]; first_a := None |}.

Arguments cell s%_string.

Definition link_to (h : String.string) : a_tag := {| href := Some (py h) |}.

Arguments link_to h%_string.

Definition name_cell (s : String.string) (link : option a_tag) : td :=
  {| strings := [py s]; first_a := link |}.

Arguments name_cell s%_string link.

Definition row_of (name : String.string) (link : option a_tag)
  (sym : String.string) : tr :=
  [cell "1"; name_cell name link; cell sym; cell " Active ";
   cell "Commercial Banks"; cell "Equity"; cell "info@example.com";
   cell "www.example.com"].

Arguments row_of name%_string link sym%_string.

Definition record_of (n : option Z) (name sym : String.string) : company :=
  {| id := n;
     companyName := py name;
     symbol := py sym;
     securityName := py name;
     status := py "Active";
     sectorName := py "Commercial Banks";
     instrumentType := py "Equity";
     companyEmail := py "info@example.com";
     website := py "www.example.com";
     regulatoryBody := py "SEBON" |}.

Arguments record_of n name%_string sym%_string.

Definition nabil : tr :=
  row_of "  Nabil Bank Limited " (Some (link_to "/company/detail/131")) "NABIL".

Definition adbl : tr :=
  row_of "Agricultural Development Bank"
    (Some (link_to "https://nepalstock.com/company/482")) "ADBL".

Definition unlinked : tr := row_of "Unlinked" None "UNL".

Definition short_row : tr := [cell "No records found"].

Definition broken : tr := row_of "Broken" (Some (link_to "/company/abc")) "BRK".

Definition nabil_record : company :=
  record_of (Some 131%Z) "Nabil Bank Limited" "NABIL".

Definition adbl_record : company :=
  record_of (Some 482%Z) "Agricultural Development Bank" "ADBL".

Definition unlinked_record : company := record_of None "Unlinked" "UNL".

Definition more : result (result unit) := Return (Return tt).

Definition no_more : result (result unit) := Raise NoSuchElementException.

Definition page_of (rows : list tr) (next : result (result unit)) : page :=
  {| table := Return tt; source := Return rows; next_btn := next |}.

(** A page on which no table comes up. *)
Definition blank : page :=
  {| table := Raise TimeoutException; source := Return [];
     next_btn := no_more |}.

(** A session in which every call succeeds, over the given pages, after
    which no table comes up any more. *)
Definition browse (ps : list page) : session :=
  {| chrome := Return tt; cdp := Return tt; navigate := Return tt;
     page_size_select := Return (Return tt);
     pages := fun i => nth (i - 1) ps blank;
     quit := Return tt |}.

Definition two_pages : session :=
  browse [page_of [nabil; short_row] more; page_of [adbl; unlinked] no_more].

Definition two_pages_records (i : nat) : list company :=
  match i with
  | 1 => [nabil_record]
  | 2 => [adbl_record; unlinked_record]
  | _ => []
  end.

(** The second page never comes up. *)
Definition second_page_hangs : session :=
  browse [page_of [nabil; short_row] more].

(** The page-size dropdown never comes up. *)
Definition no_dropdown : session :=
  {| chrome := Return tt; cdp := Return tt; navigate := Return tt;
     page_size_select := Raise TimeoutException;
     pages := fun _ => blank;
     quit := Return tt |}.

(** Closing the browser fails. *)
Definition quit_fails : session :=
  {| chrome := Return tt; cdp := Return tt; navigate := Return tt;
     page_size_select := Return (Return tt);
     pages := fun i => nth (i - 1) [page_of [nabil] no_more] blank;
     quit := Raise WebDriverException |}.

Definition one_broken_row : session :=
  browse [page_of [nabil; broken; adbl] no_more].

End Samples.

(** The outcome of a run, without its final state. *)
Definition outcome {A : Type} (x : option (result A * state))
  : option (result A) :=
  option_map fst x.

(** What can follow a value in an encoded document: the end of the text,
    a comma, or a line break. *)
Definition delimited (rest : str) : Prop :=
  match rest with
  | [] => True
  | c :: _ => c = COMMA \/ c = NEWLINE
  end.

(** The steps that decoding a value can take. *)
Fixpoint size (v : json) : nat :=
  match v with
  | JList items => S (list_sum (map (fun x => S (size x)) items))
  | JDict items =>
      S (list_sum (map (fun kv => match kv with
                                  | (_, x) => S (size x)
                                  end) items))
  | _ => 1
  end.

(** Values that a dictionary of Python can hold: no key twice. *)
#[warnings="-register-all"] Inductive wf : json -> Prop :=
| wf_null : wf JNull
| wf_bool (b : bool) : wf (JBool b)
| wf_int (n : Z) : wf (JInt n)
| wf_str (s : str) : wf (JStr s)
| wf_list (items : list json) : Forall wf items -> wf (JList items)
| wf_dict (items : list (str * json)) :
    NoDup (map fst items) ->
    Forall (fun kv => wf (snd kv)) items ->
    wf (JDict items).

(** Induction on a value, through the lists of values inside it. *)
Section JsonInduction.

Variable P : json -> Prop.
Hypothesis P_null : P JNull.
Hypothesis P_bool : forall b, P (JBool b).
Hypothesis P_int : forall n, P (JInt n).
Hypothesis P_str : forall s, P (JStr s).
Hypothesis P_list : forall items, Forall P items -> P (JList items).
Hypothesis P_dict :
  forall items, Forall (fun kv => P (snd kv)) items -> P (JDict items).

Fixpoint json_induction (v : json) : P v :=
  match v with
  | JNull => P_null
  | JBool b => P_bool b
  | JInt n => P_int n
  | JStr s => P_str s
  | JList items =>
      P_list
        ((fix all (l : list json) : Forall P l :=
            match l with
            | [] => Forall_nil P
            | x :: l' => Forall_cons x (json_induction x) (all l')
            end) items)
  | JDict items =>
      P_dict
        ((fix all (l : list (str * json))
            : Forall (fun kv => P (snd kv)) l :=
            match l with
            | [] => Forall_nil _
            | (k, x) :: l' =>
                @Forall_cons _ (fun kv => P (snd kv)) (k, x) l'
                  (json_induction x) (all l')
            end) items)
  end.

End JsonInduction.

(** The characters an encoded value can start with. *)
Definition starts_value (c : N) : Prop :=
  c = QUOTE \/ c = LBRACE \/ c = LBRACKET \/ c = 110%N \/ c = 116%N \/
  c = 102%N \/ c = MINUS \/ is_digit c = true.

(** A value that reads back as itself wherever it is written. *)
Definition reads_back (x : json) : Prop :=
  forall fuel level rest,
    size x <= fuel -> delimited rest ->
    scan_once fuel (encode level x ++ rest) = Some (x, rest).

(** The text of one item of a dictionary, as [encode] writes it. *)
Definition encode_member (level : nat) (kv : str * json) : str :=
  match kv with
  | (k, x) => encode_basestring k ++ [COLON; SPACE] ++ encode level x
  end.

(** The keys of a record, in the order of the dictionary literal. *)
Definition record_keys : list str :=
  [py "id"; py "companyName"; py "symbol"; py "securityName"; py "status";
   py "sectorName"; py "instrumentType"; py "companyEmail"; py "website";
   py "regulatoryBody"].

(** ** Notions used in the further properties *)

(** A statement all of whose runs are steps of a relation on states. *)
Definition steps {A : Type} (R : state -> state -> Prop) (m : M A) : Prop :=
  forall st r st', m st = Some (r, st') -> R st st'.

(** A state with one more call in its log. *)
Definition logged (st : state) (ev : event) : state :=
  {| companies := companies st; page_no := page_no st; shown := shown st;
     log := log st ++ [ev] |}.

(** The records only get more: those that were there stay, in place. *)
Definition more_records (st st' : state) : Prop :=
  exists cs, companies st' = companies st ++ cs.

(** The log only gets longer. *)
Definition more_log (st st' : state) : Prop :=
  exists l, log st' = log st ++ l.

(** The two fields of a record that do not depend on the row. *)
Definition fixed_fields (c : company) : Prop :=
  regulatoryBody c = py "SEBON" /\ securityName c = companyName c.

(** If the records were all as they should be, they still are. *)
Definition keeps_records (P : company -> Prop) (st st' : state) : Prop :=
  Forall P (companies st) -> Forall P (companies st').

(** The exceptions that end the loop where they are raised. *)
Definition ends_loop_after_page (e : exn) : bool :=
  is_NoSuchElementException e || is_TimeoutException e.

(** The outcome of the run when the loop, with the records [cs] collected,
    meets the exception [e], which is absorbed or not. *)
Definition absorbed_or_raised (absorbed : bool) (cs : list company) (e : exn)
  : result (list company) :=
  if absorbed then Return cs else Raise e.

(** The record that a row contributes, if any. *)
Definition row_records (row : tr) : list company :=
  match extract_row row with
  | Return (Some c) => [c]
  | _ => []
  end.

(** What the loop makes of the outcome of its last turn. *)
Definition loop_outcome (r : result ctl) : result unit :=
  match r with
  | Return _ => Return tt
  | Raise e => Raise e
  end.

(** More sample sessions. *)
Module MoreSamples.

(** Chrome does not start. *)
Definition no_chrome : session :=
  {| chrome := Raise WebDriverException; cdp := Return tt;
     navigate := Return tt; page_size_select := Return (Return tt);
     pages := fun _ => Samples.blank; quit := Return tt |}.

(** The URL does not open. *)
Definition no_site : session :=
  {| chrome := Return tt; cdp := Return tt;
     navigate := Raise WebDriverException;
     page_size_select := Return (Return tt);
     pages := fun _ => Samples.blank; quit := Return tt |}.

(** The next-page link of the first page is there, and the click on it
    takes too long. *)
Definition click_hangs : session :=
  Samples.browse
    [Samples.page_of [Samples.nabil] (Return (Raise TimeoutException))].

(** The table of the second page fails with an error of the driver. *)
Definition second_page_crashes : session :=
  Samples.browse
    [Samples.page_of [Samples.nabil] Samples.more;
     {| table := Raise WebDriverException; source := Return [];
        next_btn := Samples.no_more |}].

(** Every page has a next-page link. *)
Definition endless : session :=
  {| chrome := Return tt; cdp := Return tt; navigate := Return tt;
     page_size_select := Return (Return tt);
     pages := fun _ => Samples.page_of [Samples.nabil] Samples.more;
     quit := Return tt |}.

(** A broken row on the second page. *)
Definition broken_on_second : session :=
  Samples.browse
    [Samples.page_of [Samples.nabil] Samples.more;
     Samples.page_of [Samples.adbl; Samples.broken] Samples.no_more].

(** A record with a tab, a carriage return, an escape character and a
    delete character in its name. *)
Definition control_record : company :=
  {| id := None;
     companyName := [67; 9; 13; 27; 127; 76]%N;
     symbol := py "CTL";
     securityName := [67; 9; 13; 27; 127; 76]%N;
     status := py "Active";
     sectorName := py "Others";
     instrumentType := py "Equity";
     companyEmail := [];
     website := [];
     regulatoryBody := py "SEBON" |}.

End MoreSamples.

(** A string with no whitespace at either end. *)
Definition tidy (s : str) : Prop :=
  (forall c t, s = c :: t -> Py_UNICODE_ISSPACE c = false) /\
  (forall t c, s = t ++ [c] -> Py_UNICODE_ISSPACE c = false).

(** The text fields of a record that come from the cells of its row. *)
Definition cell_fields (c : company) : list str :=
  [companyName c; symbol c; securityName c; status c; sectorName c;
   instrumentType c; companyEmail c; website c].

(** The value of a run of decimal digits read after the value [acc]. *)
Fixpoint uint_acc (acc : N) (u : Decimal.uint) : N :=
  match u with
  | Decimal.Nil => acc
  | Decimal.D0 u' => uint_acc (10 * acc) u'
  | Decimal.D1 u' => uint_acc (10 * acc + 1) u'
  | Decimal.D2 u' => uint_acc (10 * acc + 2) u'
  | Decimal.D3 u' => uint_acc (10 * acc + 3) u'
  | Decimal.D4 u' => uint_acc (10 * acc + 4) u'
  | Decimal.D5 u' => uint_acc (10 * acc + 5) u'
  | Decimal.D6 u' => uint_acc (10 * acc + 6) u'
  | Decimal.D7 u' => uint_acc (10 * acc + 7) u'
  | Decimal.D8 u' => uint_acc (10 * acc + 8) u'
  | Decimal.D9 u' => uint_acc (10 * acc + 9) u'
  end.

(** The characters from U+0020 up, and the line feed. *)
Definition plain (c : N) : bool := (32 <=? c)%N || N.eqb c NEWLINE.

(** A property of the state that a step keeps, if it held before. *)
Definition keeps (I : state -> Prop) (st st' : state) : Prop := I st -> I st'.

(** The wait for the table at the head of the loop. *)
Definition TABLE_WAIT : event := WaitUntilPresent By_TAG_NAME (py "table").

(** The calls other than the snapshot of the page and the progress line. *)
Definition benign (ev : event) : bool :=
  match ev with
  | DriverPageSource | PrintScraped _ => false
  | _ => true
  end.

(** The state after the progress line of a page and the step of the page
    counter. *)
Definition page_printed (st : state) : state :=
  {| companies := companies st; page_no := page_no st + 1;
     shown := shown st; log := log st ++ [PrintScraped (page_no st)] |}.

(** The page numbers of the progress lines of a log, oldest first. *)
Definition printed_pages (l : list event) : list nat :=
  flat_map (fun ev => match ev with PrintScraped n => [n] | _ => [] end) l.

(** The progress lines so far count up from 1, and the page counter is one
    ahead of them. *)
Definition counts_pages (st : state) : Prop :=
  printed_pages (log st) = seq 1 (page_no st - 1) /\ 1 <= page_no st.

(** Every snapshot of the page in a log comes right after a wait for the
    table. *)
Definition waits_first (l : list event) : Prop :=
  forall l1 l2, l = l1 ++ DriverPageSource :: l2 ->
                exists l0, l1 = l0 ++ [TABLE_WAIT].

(** The number of decimal digits of an integer. *)
Definition decimal_digits (n : Z) : nat :=
  match Z.to_int n with
  | Decimal.Pos u | Decimal.Neg u => length (uint_chars u)
  end.

(** What [int] makes of a value read from a run of digits of the given
    length. *)
Definition capped (digits : nat) (v : Z) : result Z :=
  if Nat.ltb MAX_STR_DIGITS digits then Raise ValueError else Return v.

(** ** Facts about the string builtins *)

Section SplitFacts.

Variable sep : N.

Lemma split_cons_shape (s : str) :
  exists seg segs, split sep s = seg :: segs.
Proof.
  induction s as [|c s IH]; simpl.
  - now exists [], [].
  - destruct (N.eqb c sep).
    + now exists [], (split sep s).
    + destruct IH as (seg & segs & ->). now exists (c :: seg), segs.
Qed.

Lemma split_app_sep (p s : str) :
  split sep (p ++ sep :: s) = split sep p ++ split sep s.
Proof.
  induction p as [|c p IH]; simpl.
  - now rewrite N.eqb_refl.
  - destruct (N.eqb c sep); [now rewrite IH|].
    rewrite IH. destruct (split_cons_shape p) as (seg & segs & ->).
    reflexivity.
Qed.

Lemma split_no_sep (s : str) :
  forallb (fun c => negb (N.eqb c sep)) s = true -> split sep s = [s].
Proof.
  induction s as [|c s IH]; simpl; [reflexivity|].
  intros H. apply andb_prop in H as [Hc Hs].
  destruct (N.eqb c sep); [discriminate|]. now rewrite IH.
Qed.

Lemma getitem_last_app {A : Type} (l : list A) (x : A) (l' : list A) :
  getitem_last (l ++ x :: l') = getitem_last (x :: l').
Proof.
  unfold getitem_last. rewrite rev_app_distr.
  destruct (rev (x :: l')) as [|y ys] eqn:E; [|reflexivity].
  apply (f_equal (@length A)) in E. rewrite length_rev in E. discriminate.
Qed.

(** [s.split(sep)[-1]] never fails. *)
Lemma getitem_last_split (s : str) :
  exists seg, getitem_last (split sep s) = Return seg.
Proof.
  destruct (split_cons_shape s) as (seg & segs & ->).
  unfold getitem_last.
  destruct (rev (seg :: segs)) as [|y ys] eqn:E; [|now exists y].
  apply (f_equal (@length str)) in E. rewrite length_rev in E. discriminate.
Qed.

(** The last piece of [p + sep + s] is [s] when [s] has no separator. *)
Lemma getitem_last_split_suffix (p s : str) :
  forallb (fun c => negb (N.eqb c sep)) s = true ->
  getitem_last (split sep (p ++ sep :: s)) = Return s.
Proof.
  intros H. rewrite split_app_sep, (split_no_sep s H).
  destruct (split_cons_shape p) as (seg & segs & ->).
  change ((seg :: segs) ++ [s]) with ((seg :: segs) ++ s :: []).
  now rewrite getitem_last_app.
Qed.

End SplitFacts.

(** ** Facts about one row *)

(** A row with eight cells or more, taken apart. *)
Lemma long_row_shape (row : tr) :
  8 <= length row ->
  exists c0 c1 c2 c3 c4 c5 c6 c7 rest,
    row = c0 :: c1 :: c2 :: c3 :: c4 :: c5 :: c6 :: c7 :: rest.
Proof.
  intros H.
  do 8 (destruct row as [|? row]; [simpl in H; lia|]).
  repeat eexists.
Qed.

(** What the loop body computes on a row of eight cells or more. *)
Lemma extract_row_long (c0 c1 c2 c3 c4 c5 c6 c7 : td) (rest : list td) :
  extract_row (c0 :: c1 :: c2 :: c3 :: c4 :: c5 :: c6 :: c7 :: rest) =
  (company_id <- company_id_of (find_a c1) ;;
   v_id <- id_of company_id ;;
   Return (Some {|
     id := v_id;
     companyName := get_text_strip c1;
     symbol := get_text_strip c2;
     securityName := get_text_strip c1;
     status := get_text_strip c3;
     sectorName := get_text_strip c4;
     instrumentType := get_text_strip c5;
     companyEmail := get_text_strip c6;
     website := get_text_strip c7;
     regulatoryBody := get_regulatory_body (get_text_strip c4)
   |}))%res.
Proof.
  unfold extract_row, find_all_td. simpl.
  destruct (company_id_of (find_a c1)) as [cid|e]; simpl; [|reflexivity].
  destruct (id_of cid); reflexivity.
Qed.

Lemma extract_row_short (row : tr) :
  length row < 8 -> extract_row row = Return None.
Proof.
  intros H. unfold extract_row, find_all_td.
  destruct (Nat.ltb_spec (length row) 8); [reflexivity|lia].
Qed.

(** The candidate id is always computed: the guard keeps the attribute
    lookup and the indexing from failing. *)
Lemma company_id_of_returns (link : option a_tag) :
  exists cid, company_id_of link = Return cid.
Proof.
  destruct link as [[[h|]]|]; try (now eexists).
  unfold company_id_of, get_href, getitem_href.
  cbn [opt_truthy href rbind].
  destruct (str_truthy h); [|now eexists].
  destruct (getitem_last_split SLASH h) as (seg & ->). now eexists.
Qed.

(** The candidate id, case by case. *)
Lemma company_id_of_href (h : str) :
  h <> [] ->
  exists seg, getitem_last (split SLASH h) = Return seg /\
              company_id_of (Some {| href := Some h |}) = Return (Some seg).
Proof.
  intros Hh. destruct (getitem_last_split SLASH h) as (seg & E).
  exists seg. split; [exact E|].
  unfold company_id_of, get_href, getitem_href.
  destruct h; [congruence|]. cbn [opt_truthy str_truthy href rbind].
  now rewrite E.
Qed.

Lemma id_of_falsy (cid : option str) :
  opt_truthy cid = false -> id_of cid = Return None.
Proof. unfold id_of. now intros ->. Qed.

Lemma id_of_truthy (s : str) :
  s <> [] ->
  id_of (Some s) = match int s with
                   | Return n => Return (Some n)
                   | Raise e => Raise e
                   end.
Proof. destruct s; [congruence|reflexivity]. Qed.

(** [int] raises nothing but [ValueError]. *)
Lemma int_raises_ValueError (s : str) (e : exn) :
  int s = Raise e -> e = ValueError.
Proof.
  unfold int.
  destruct (match skip_spaces (to_ascii_digits s) with
            | [] => (false, skip_spaces (to_ascii_digits s))
            | c :: a' =>
                if N.eqb c PLUS then (false, a')
                else if N.eqb c MINUS then (true, a')
                else (false, skip_spaces (to_ascii_digits s))
            end) as [negative digits].
  destruct (scan_digits None 0%N digits) as [[n rest]|]; [|congruence].
  destruct (Nat.ltb MAX_STR_DIGITS (count_digits digits)); [congruence|].
  destruct (skip_spaces rest); congruence.
Qed.

Lemma six_more (rest : list td) :
  6 <= length rest ->
  exists c2 c3 c4 c5 c6 c7 rest', rest = c2 :: c3 :: c4 :: c5 :: c6 :: c7 :: rest'.
Proof.
  intros H.
  do 6 (destruct rest as [|? rest]; [simpl in H; lia|]).
  repeat eexists.
Qed.

(** The id of a row, from the candidate id of its name cell. *)
Lemma extract_row_id (c0 name : td) (rest : list td) (cid : option str) :
  6 <= length rest ->
  company_id_of (find_a name) = Return cid ->
  match id_of cid with
  | Return v => exists r, extract_row (c0 :: name :: rest) = Return (Some r)
                          /\ id r = v
  | Raise e => extract_row (c0 :: name :: rest) = Raise e
  end.
Proof.
  intros Hlen Hcid.
  destruct (six_more rest Hlen) as (c2 & c3 & c4 & c5 & c6 & c7 & rest' & ->).
  rewrite extract_row_long, Hcid. cbn [rbind].
  destruct (id_of cid) as [v|e]; cbn [rbind]; [|reflexivity].
  eexists. split; reflexivity.
Qed.

Lemma bad_id_raises (row : tr) :
  bad_id row -> extract_row row = Raise ValueError.
Proof.
  intros (c0 & name & rest & h & seg & -> & Hlen & Ha & Hseg & Hne & Hint).
  assert (Hh : h <> []).
  { intros ->. cbv in Hseg. congruence. }
  destruct (company_id_of_href Hh) as (seg' & E & Hcid).
  rewrite Hseg in E. injection E as <-.
  rewrite <- Ha in Hcid.
  pose proof (extract_row_id c0 name rest Hlen Hcid) as H.
  rewrite (id_of_truthy Hne), Hint in H. exact H.
Qed.

Lemma raise_is_bad_id (row : tr) (e : exn) :
  extract_row row = Raise e -> e = ValueError /\ bad_id row.
Proof.
  intros H.
  destruct (Nat.lt_ge_cases (length row) 8) as [Hs|Hl].
  { rewrite (extract_row_short row Hs) in H. discriminate. }
  destruct (long_row_shape row Hl)
    as (c0 & name & c2 & c3 & c4 & c5 & c6 & c7 & rest' & ->).
  set (rest := c2 :: c3 :: c4 :: c5 :: c6 :: c7 :: rest') in *.
  assert (Hlen : 6 <= length rest) by (subst rest; simpl; lia).
  destruct (company_id_of_returns (find_a name)) as (cid & Hcid).
  pose proof (extract_row_id c0 name rest Hlen Hcid) as Hr.
  destruct (id_of cid) as [v|e'] eqn:Hid.
  { destruct Hr as (r & Hr & _). rewrite Hr in H. discriminate. }
  rewrite Hr in H. injection H as ->.
  destruct (opt_truthy cid) eqn:Ht;
    [|rewrite (id_of_falsy cid Ht) in Hid; discriminate].
  destruct cid as [seg|]; [|discriminate].
  assert (Hne : seg <> []) by (intros ->; discriminate).
  rewrite (id_of_truthy Hne) in Hid.
  destruct (int seg) as [n|e'] eqn:Hint; [discriminate|].
  injection Hid as ->.
  pose proof (int_raises_ValueError _ Hint) as ->.
  split; [reflexivity|].
  destruct (find_a name) as [[[h|]]|] eqn:Ha;
    try (cbv in Hcid; discriminate).
  destruct h as [|x h]; [cbv in Hcid; discriminate|].
  destruct (@company_id_of_href (x :: h)) as (seg' & Hseg & Hcid');
    [discriminate|].
  rewrite Hcid' in Hcid. injection Hcid as ->.
  exists c0, name, rest, (x :: h), seg.
  repeat split; assumption.
Qed.


(** ** Facts about the page loop *)

Lemma appended_nil (st : state) : appended st [] = st.
Proof. destruct st. unfold appended. simpl. now rewrite app_nil_r. Qed.

Lemma appended_cons (st : state) (c : company) (cs : list company) :
  appended (appended st [c]) cs = appended st (c :: cs).
Proof. unfold appended. simpl. now rewrite <- app_assoc. Qed.

(** The row loop, in terms of [extract_page]. *)
Lemma for_each_scrape_row (rows : list tr) (st : state) :
  for_each rows scrape_row st =
  Some (match snd (extract_page rows) with
        | None => Return tt
        | Some e => Raise e
        end,
        appended st (fst (extract_page rows))).
Proof.
  revert st. induction rows as [|row rows IH]; intros st.
  - simpl. now rewrite appended_nil.
  - cbn [for_each extract_page]. unfold bind at 1. unfold scrape_row at 1.
    unfold bind at 1, lift.
    destruct (extract_row row) as [[c|]|e].
    + unfold bind, get_companies_var, set_companies. rewrite IH.
      fold (appended st [c]).
      destruct (extract_page rows) as [cs oe]. cbn [fst snd].
      now rewrite appended_cons.
    + unfold ret. apply IH.
    + cbn [fst snd]. now rewrite appended_nil.
Qed.

Lemma extraction_passes_app (l l' : list event) :
  extraction_passes (l ++ l') = extraction_passes l + extraction_passes l'.
Proof. unfold extraction_passes. now rewrite filter_app, length_app. Qed.

Lemma quits_app (l l' : list event) : quits (l ++ l') = quits l + quits l'.
Proof. unfold quits. now rewrite filter_app, length_app. Qed.

Ltac run_page :=
  unfold scrape_page, try_except, bind, current, call, get_page_no,
    set_page_no, turn_page, ret;
  cbn [companies page_no shown log].

Ltac end_page :=
  cbn -[extraction_passes quits];
  eexists; split; [reflexivity|];
  cbn -[extraction_passes quits];
  rewrite ?extraction_passes_app, ?quits_app; cbn; repeat split; lia.

(** A turn of the loop whose wait for the table times out. *)
Lemma scrape_page_timeout (w : session) (st : state) :
  table (pages w (shown st)) = Raise TimeoutException ->
  exists st',
    scrape_page w st = Some (Return Break, st') /\
    companies st' = companies st /\
    extraction_passes (log st') = extraction_passes (log st) /\
    quits (log st') = quits (log st).
Proof.
  intros Ht. run_page. rewrite Ht. end_page.
Qed.

(** A turn of the loop on a page that renders and has no next-page link. *)
Lemma scrape_page_last (w : session) (st : state) (cs : list company) :
  renders w (shown st) cs -> is_last w (shown st) ->
  exists st',
    scrape_page w st = Some (Return Break, st') /\
    companies st' = companies st ++ cs /\
    extraction_passes (log st') = S (extraction_passes (log st)) /\
    quits (log st') = quits (log st).
Proof.
  intros (Ht & rows & Hs & Hx) Hn. red in Hn. run_page.
  rewrite Ht, Hs, for_each_scrape_row, Hx, Hn. end_page.
Qed.

(** A turn of the loop on a page that renders and leads to a next one. *)
Lemma scrape_page_next (w : session) (st : state) (cs : list company) :
  renders w (shown st) cs -> has_next w (shown st) ->
  exists st',
    scrape_page w st = Some (Return Continue, st') /\
    companies st' = companies st ++ cs /\
    shown st' = S (shown st) /\
    extraction_passes (log st') = S (extraction_passes (log st)) /\
    quits (log st') = quits (log st).
Proof.
  intros (Ht & rows & Hs & Hx) Hn. red in Hn. run_page.
  rewrite Ht, Hs, for_each_scrape_row, Hx, Hn. end_page.
Qed.

(** The loop over [n] pages that render and lead on: it arrives at page
    [shown st + n] with the records of those pages appended in order. *)
Lemma while_true_pages (w : session) (recs : nat -> list company) (n : nat) :
  forall (fuel : nat) (st : state),
    (forall i, shown st <= i < shown st + n ->
               renders w i (recs i) /\ has_next w i) ->
    exists st',
      while_true (n + fuel) (scrape_page w) st =
        while_true fuel (scrape_page w) st' /\
      companies st' =
        companies st ++ concat (map recs (seq (shown st) n)) /\
      shown st' = shown st + n /\
      extraction_passes (log st') = extraction_passes (log st) + n /\
      quits (log st') = quits (log st).
Proof.
  induction n as [|n IH]; intros fuel st H.
  - exists st. cbn. rewrite app_nil_r. repeat split; lia.
  - destruct (H (shown st)) as [Hr Hn]; [lia|].
    destruct (scrape_page_next st Hr Hn) as (st1 & E1 & Hc1 & Hs1 & Hp1 & Hq1).
    destruct (IH fuel st1) as (st' & E & Hc & Hs & Hp & Hq).
    { intros i Hi. apply H. lia. }
    exists st'. split.
    + cbn [Nat.add while_true]. unfold bind at 1. rewrite E1. exact E.
    + rewrite Hc, Hc1, Hs, Hs1, Hp, Hp1, Hq, Hq1. cbn [seq map concat].
      rewrite <- app_assoc. repeat split; lia.
Qed.

(** A row of eight cells or more is never skipped. *)
Lemma extract_row_long_not_skipped (row : tr) :
  8 <= length row -> extract_row row <> Return None.
Proof.
  intros Hlong.
  destruct (long_row_shape row Hlong)
    as (c0 & c1 & c2 & c3 & c4 & c5 & c6 & c7 & rest & ->).
  rewrite extract_row_long.
  destruct (company_id_of (find_a c1)) as [cid|]; [|discriminate].
  cbn [rbind]. destruct (id_of cid); discriminate.
Qed.

Lemma extract_page_no_raise (rows : list tr) :
  (forall row e, In row rows -> extract_row row <> Raise e) ->
  exists recs,
    extract_page rows = (recs, None) /\
    length recs = length (filter (fun row => 8 <=? length row) rows).
Proof.
  induction rows as [|row rows IH]; intros H.
  - now exists [].
  - destruct IH as (recs & E & Hl).
    { intros r e Hr. apply H. now right. }
    cbn [extract_page filter].
    destruct (Nat.leb_spec 8 (length row)) as [Hlong|Hshort].
    + pose proof (extract_row_long_not_skipped row Hlong) as Hsome.
      destruct (extract_row row) as [[c|]|e] eqn:Ho.
      * rewrite E. eexists. split; [reflexivity|].
        cbn [length]. now rewrite Hl.
      * congruence.
      * exfalso. apply (H row e); [now left|exact Ho].
    + rewrite (extract_row_short row Hshort). now exists recs.
Qed.

Lemma extract_page_filter (rows : list tr) :
  extract_page (filter (fun row => 8 <=? length row) rows) =
  extract_page rows.
Proof.
  induction rows as [|row rows IH]; [reflexivity|].
  cbn [filter extract_page].
  destruct (Nat.leb_spec 8 (length row)) as [Hlong|Hshort].
  - cbn [extract_page]. now rewrite IH.
  - now rewrite (extract_row_short row Hshort).
Qed.

(** ** Facts about [get_companies] *)

(** A session that opens reaches the loop in the state [at_loop]. *)
Lemma get_companies_opens (fuel : nat) (w : session) :
  opens w ->
  get_companies fuel w true initial =
  try_finally (loop_and_return fuel w) (call DriverQuit (quit w)) at_loop.
Proof.
  intros (Hc & Hn & Hs).
  unfold get_companies, init_driver, try_finally, try_except, bind, call,
    set_companies, set_page_no, ret. cbn [negb].
  rewrite Hc, Hn, Hs. cbn [companies page_no shown log initial app].
  destruct (cdp w); reflexivity.
Qed.

Lemma quiet_ret {A : Type} (a : A) : quiet (ret a).
Proof. intros st r st' H. now injection H as <- <-. Qed.

Lemma quiet_lift {A : Type} (x : result A) : quiet (lift x).
Proof. intros st r st' H. now injection H as <- <-. Qed.

Lemma quiet_call {A : Type} (ev : event) (x : result A) :
  is_quit ev = false -> quiet (call ev x).
Proof.
  intros Hev st r st' H. injection H as <- <-. cbn [log].
  rewrite quits_app. unfold quits at 2. cbn [filter]. rewrite Hev.
  cbn. lia.
Qed.

Lemma quiet_bind {A B : Type} (m : M A) (k : A -> M B) :
  quiet m -> (forall a, quiet (k a)) -> quiet (bind m k).
Proof.
  intros Hm Hk st r st' H. unfold bind in H.
  destruct (m st) as [[[a|e] st1]|] eqn:E; [| |discriminate].
  - rewrite (Hk a _ _ _ H). exact (Hm _ _ _ E).
  - injection H as <- <-. exact (Hm _ _ _ E).
Qed.

Lemma quiet_try_except {A : Type} (body : M A) (c : exn -> bool)
  (handler : M A) :
  quiet body -> quiet handler -> quiet (try_except body c handler).
Proof.
  intros Hb Hh st r st' H. unfold try_except in H.
  destruct (body st) as [[[a|e] st1]|] eqn:E; [| |discriminate].
  - injection H as <- <-. exact (Hb _ _ _ E).
  - destruct (c e).
    + rewrite (Hh _ _ _ H). exact (Hb _ _ _ E).
    + injection H as <- <-. exact (Hb _ _ _ E).
Qed.

Lemma quiet_for_each {A : Type} (xs : list A) (body : A -> M unit) :
  (forall x, quiet (body x)) -> quiet (for_each xs body).
Proof.
  intros Hb. induction xs as [|x xs IH]; cbn [for_each].
  - apply quiet_ret.
  - apply quiet_bind; [apply Hb|intros _; exact IH].
Qed.

Lemma quiet_while_true (fuel : nat) (body : M ctl) :
  quiet body -> quiet (while_true fuel body).
Proof.
  intros Hb. induction fuel as [|fuel IH]; cbn [while_true].
  - intros st r st' H. discriminate.
  - apply quiet_bind; [exact Hb|]. intros [|]; [apply quiet_ret|exact IH].
Qed.

Lemma quiet_state (f : state -> state) :
  (forall st, log (f st) = log st) ->
  quiet (fun st => Some (Return tt, f st)).
Proof. intros Hf st r st' H. injection H as <- <-. now rewrite Hf. Qed.

Lemma quiet_read {A : Type} (f : state -> A) :
  quiet (fun st => Some (Return (f st), st)).
Proof. intros st r st' H. now injection H as <- <-. Qed.

Lemma quiet_scrape_row (row : tr) : quiet (scrape_row row).
Proof.
  unfold scrape_row. apply quiet_bind; [apply quiet_lift|].
  intros [c|]; [|apply quiet_ret].
  apply quiet_bind; [apply (quiet_read companies)|]. intros cs.
  now apply (quiet_state (fun st => _)).
Qed.

Lemma quiet_scrape_page (w : session) : quiet (scrape_page w).
Proof.
  unfold scrape_page.
  apply quiet_try_except; [|apply quiet_ret].
  apply quiet_bind; [apply (quiet_read (fun st => pages w (shown st)))|].
  intros p. apply quiet_bind; [now apply quiet_call|]. intros _.
  apply quiet_bind; [now apply quiet_call|]. intros rows.
  apply quiet_bind; [apply quiet_for_each, quiet_scrape_row|]. intros _.
  apply quiet_bind; [apply (quiet_read page_no)|]. intros n.
  apply quiet_bind; [now apply quiet_call|]. intros _.
  apply quiet_bind; [now apply (quiet_state (fun st => _))|]. intros _.
  apply quiet_try_except; [|apply quiet_ret].
  apply quiet_bind; [now apply quiet_call|]. intros next.
  apply quiet_bind; [now apply quiet_call|]. intros _.
  apply quiet_bind; [now apply (quiet_state (fun st => _))|]. intros _.
  apply quiet_bind; [now apply quiet_call|]. intros _.
  apply quiet_ret.
Qed.

Lemma quiet_loop_and_return (fuel : nat) (w : session) :
  quiet (loop_and_return fuel w).
Proof.
  unfold loop_and_return.
  apply quiet_bind; [apply quiet_while_true, quiet_scrape_page|]. intros _.
  apply quiet_bind; [apply (quiet_read companies)|]. intros cs.
  apply quiet_bind; [now apply quiet_call|]. intros _.
  apply quiet_ret.
Qed.

(** Once Chrome has started, the run is the [try] block followed by the
    closing of the browser, whatever the devtools command did. *)
Lemma get_companies_started (fuel : nat) (w : session) :
  chrome w = Return tt ->
  get_companies fuel w true initial =
  try_finally (try_block fuel w) (call DriverQuit (quit w)) at_try.
Proof.
  intros Hc.
  unfold get_companies, init_driver, try_except, bind at 1 2 3 4, call at 1 2,
    set_companies, set_page_no, ret. cbn [negb].
  rewrite Hc. cbn [companies page_no shown log initial app].
  destruct (cdp w); reflexivity.
Qed.

Lemma quiet_try_block (fuel : nat) (w : session) : quiet (try_block fuel w).
Proof.
  unfold try_block.
  apply quiet_bind; [now apply quiet_call|]. intros _.
  apply quiet_bind; [now apply quiet_call|]. intros select.
  apply quiet_bind; [now apply quiet_call|]. intros _.
  apply quiet_bind; [now apply quiet_call|]. intros _.
  apply quiet_loop_and_return.
Qed.

(** The loop over [n] pages that lead on and a last page without a
    next-page link. *)
Lemma while_true_to_last (w : session) (recs : nat -> list company)
  (n fuel : nat) (st : state) :
  n < fuel ->
  (forall i, shown st <= i <= shown st + n -> renders w i (recs i)) ->
  (forall i, shown st <= i < shown st + n -> has_next w i) ->
  is_last w (shown st + n) ->
  exists st',
    while_true fuel (scrape_page w) st = Some (Return tt, st') /\
    companies st' =
      companies st ++ concat (map recs (seq (shown st) (S n))) /\
    extraction_passes (log st') = extraction_passes (log st) + S n /\
    quits (log st') = quits (log st).
Proof.
  intros Hf Hr Hn Hl.
  destruct (@while_true_pages w recs n (fuel - n) st)
    as (st1 & E1 & Hc1 & Hs1 & Hp1 & Hq1).
  { intros i Hi. split; [apply Hr|apply Hn]; lia. }
  replace (n + (fuel - n)) with fuel in E1 by lia.
  destruct (fuel - n) as [|f] eqn:Ef; [lia|].
  rewrite <- Hs1 in Hl.
  assert (Hr1 : renders w (shown st1) (recs (shown st + n))).
  { rewrite Hs1. apply Hr. lia. }
  destruct (scrape_page_last st1 Hr1 Hl) as (st' & E & Hc & Hp & Hq).
  exists st'. split.
  - rewrite E1. cbn [while_true]. unfold bind. now rewrite E.
  - rewrite Hc, Hc1, Hp, Hp1, Hq, Hq1.
    rewrite seq_S, map_app, concat_app. cbn [map concat].
    rewrite app_nil_r, <- app_assoc. repeat split; lia.
Qed.

(** The loop over [n] pages that lead on and a page whose table does not
    come up in time. *)
Lemma while_true_to_timeout (w : session) (recs : nat -> list company)
  (n fuel : nat) (st : state) :
  n < fuel ->
  (forall i, shown st <= i < shown st + n ->
             renders w i (recs i) /\ has_next w i) ->
  table (pages w (shown st + n)) = Raise TimeoutException ->
  exists st',
    while_true fuel (scrape_page w) st = Some (Return tt, st') /\
    companies st' =
      companies st ++ concat (map recs (seq (shown st) n)) /\
    extraction_passes (log st') = extraction_passes (log st) + n /\
    quits (log st') = quits (log st).
Proof.
  intros Hf H Ht.
  destruct (@while_true_pages w recs n (fuel - n) st H)
    as (st1 & E1 & Hc1 & Hs1 & Hp1 & Hq1).
  replace (n + (fuel - n)) with fuel in E1 by lia.
  destruct (fuel - n) as [|f] eqn:Ef; [lia|].
  rewrite <- Hs1 in Ht.
  destruct (scrape_page_timeout w st1 Ht) as (st' & E & Hc & Hp & Hq).
  exists st'. split.
  - rewrite E1. cbn [while_true]. unfold bind. now rewrite E.
  - rewrite Hc, Hc1, Hp, Hp1, Hq, Hq1. repeat split; lia.
Qed.

(** After a loop that ends, a session that opens and closes returns the
    accumulated records. *)
Lemma get_companies_after_loop (w : session) (fuel : nat) (st' : state) :
  opens w -> quit w = Return tt ->
  while_true fuel (scrape_page w) at_loop = Some (Return tt, st') ->
  exists st,
    get_companies fuel w true initial = Some (Return (companies st'), st) /\
    extraction_passes (log st) = extraction_passes (log st') /\
    quits (log st) = S (quits (log st')).
Proof.
  intros Ho Hq E. rewrite (get_companies_opens fuel Ho).
  unfold try_finally, loop_and_return, bind, get_companies_var, call, ret.
  rewrite E, Hq. cbn -[extraction_passes quits].
  eexists. split; [reflexivity|]. cbn -[extraction_passes quits].
  rewrite !extraction_passes_app, !quits_app. cbn. lia.
Qed.

Example run_two_pages :
  outcome (get_companies 2 Samples.two_pages true initial) =
  Some (Return [Samples.nabil_record; Samples.adbl_record;
                Samples.unlinked_record]).
Proof. vm_compute. reflexivity. Qed.

Example run_out_of_fuel :
  get_companies 1 Samples.two_pages true initial = None.
Proof. vm_compute. reflexivity. Qed.

Example script_two_pages :
  match script 2 Samples.two_pages with
  | Some (Return text, _) =>
      option_map of_json (loads text) =
      Some (Some [Samples.nabil_record; Samples.adbl_record;
                  Samples.unlinked_record])
  | _ => False
  end.
Proof. vm_compute. reflexivity. Qed.

Example run_second_page_hangs :
  outcome (get_companies 2 Samples.second_page_hangs true initial) =
  Some (Return [Samples.nabil_record]).
Proof. vm_compute. reflexivity. Qed.

(** ** Facts about the JSON encoder and decoder *)

(** A [\u00XX] escape of a control character reads back as itself. *)
Lemma hex4_control (c : N) :
  (c < 32)%N ->
  hex4 ZERO ZERO (hex_digit (c / 16)) (hex_digit (c mod 16)) = Some c /\
  is_high_surrogate c = false.
Proof.
  intros H.
  assert (Hin : In c (map N.of_nat (seq 0 32))).
  { replace c with (N.of_nat (N.to_nat c)) by apply N2Nat.id.
    apply in_map, in_seq. lia. }
  revert Hin. generalize c. apply Forall_forall.
  repeat (constructor; [now vm_compute|]). constructor.
Qed.

(** The decoder undoes the escaping of the encoder. *)
Lemma scanstring_escape (s : str) :
  forall acc rest,
    scanstring (flat_map escape_char s ++ QUOTE :: rest) acc =
    Some (acc ++ s, rest).
Proof.
  induction s as [|c s IH]; intros acc rest.
  - cbn. now rewrite app_nil_r.
  - cbn [flat_map]. rewrite <- app_assoc.
    replace (acc ++ c :: s) with ((acc ++ [c]) ++ s)
      by (now rewrite <- app_assoc).
    rewrite <- (IH (acc ++ [c]) rest).
    unfold escape_char.
    destruct (N.eqb_spec c QUOTE) as [->|Hq]; [reflexivity|].
    destruct (N.eqb_spec c BACKSLASH) as [->|Hb]; [reflexivity|].
    destruct (N.eqb_spec c 10) as [->|H10]; [reflexivity|].
    destruct (N.eqb_spec c 13) as [->|H13]; [reflexivity|].
    destruct (N.eqb_spec c 9) as [->|H9]; [reflexivity|].
    destruct (N.eqb_spec c 8) as [->|H8]; [reflexivity|].
    destruct (N.eqb_spec c 12) as [->|H12]; [reflexivity|].
    destruct (N.ltb_spec c 32) as [Hlt|Hge].
    + destruct (hex4_control Hlt) as [Hh Hs].
      cbn [app scanstring].
      change (N.eqb BACKSLASH QUOTE) with false.
      change (N.eqb BACKSLASH BACKSLASH) with true.
      change (N.eqb LOWER_U LOWER_U) with true.
      cbv iota. rewrite Hh, Hs. reflexivity.
    + cbn [app scanstring].
      destruct (N.eqb_spec c QUOTE); [contradiction|].
      destruct (N.eqb_spec c BACKSLASH); [contradiction|].
      destruct (N.ltb_spec c 32); [lia|]. reflexivity.
Qed.

Lemma scan_once_string (fuel : nat) (s rest : str) :
  scan_once (S fuel) (encode_basestring s ++ rest) = Some (JStr s, rest).
Proof.
  unfold encode_basestring. cbn [app scan_once].
  change (N.eqb QUOTE QUOTE) with true. cbv iota.
  rewrite <- app_assoc. cbn [app]. now rewrite scanstring_escape.
Qed.

(** The digits that the encoder writes are read back as they are. *)
Lemma scan_uint_chars (u : Decimal.uint) (rest : str) :
  delimited rest -> scan_uint (uint_chars u ++ rest) = (u, rest).
Proof.
  intros Hd.
  induction u; cbn [uint_chars app scan_uint];
    try (change (digit_of 48) with (Some Decimal.D0));
    try (change (digit_of 49) with (Some Decimal.D1));
    try (change (digit_of 50) with (Some Decimal.D2));
    try (change (digit_of 51) with (Some Decimal.D3));
    try (change (digit_of 52) with (Some Decimal.D4));
    try (change (digit_of 53) with (Some Decimal.D5));
    try (change (digit_of 54) with (Some Decimal.D6));
    try (change (digit_of 55) with (Some Decimal.D7));
    try (change (digit_of 56) with (Some Decimal.D8));
    try (change (digit_of 57) with (Some Decimal.D9));
    try (now rewrite IHu).
  destruct rest as [|c rest]; [reflexivity|].
  destruct Hd as [-> | ->]; reflexivity.
Qed.

Lemma float_follows_delimited (rest : str) :
  delimited rest -> float_follows rest = false.
Proof.
  destruct rest as [|c [|d rest]]; try reflexivity.
  intros [-> | ->]; reflexivity.
Qed.

(** The decimal form of a positive number is not empty and does not start
    with a zero. *)
Lemma to_uint_head (p : positive) :
  exists c tl,
    uint_chars (Pos.to_uint p) = c :: tl /\
    is_digit c = true /\ c <> ZERO.
Proof.
  pose proof (DecimalPos.Unsigned.to_uint_nonnil p) as Hnil.
  assert (Hnorm : Decimal.unorm (Pos.to_uint p) = Pos.to_uint p).
  { pose proof (DecimalPos.Unsigned.to_of (Pos.to_uint p)) as H.
    rewrite DecimalPos.Unsigned.of_to in H. symmetry. exact H. }
  destruct (Pos.to_uint p) as [|u|u|u|u|u|u|u|u|u|u] eqn:E;
    try congruence;
    try (eexists; eexists; cbn [uint_chars];
         split; [reflexivity|split; [reflexivity|discriminate]]).
  exfalso.
  rewrite DecimalFacts.unorm_D0 in Hnorm.
  unfold Decimal.unorm in Hnorm.
  destruct (Decimal.nzhead u) eqn:Hz; try discriminate.
  - injection Hnorm as <-.
    exact (DecimalPos.Unsigned.to_uint_nonzero p E).
  - exact (DecimalFacts.nzhead_nonzero _ _ Hz).
Qed.

(** An encoded integer, followed by a delimiter, reads back as itself. *)
Lemma match_number_repr (n : Z) (rest : str) :
  delimited rest -> match_number (repr_int n ++ rest) = Some (JInt n, rest).
Proof.
  intros Hd. unfold repr_int.
  pose proof (DecimalZ.of_to n) as Hn.
  destruct n as [|p|p]; cbn [Z.to_int] in *.
  - cbn. now rewrite (@float_follows_delimited rest Hd).
  - destruct (to_uint_head p) as (c & tl & E & Hc & H0).
    unfold match_number. rewrite E. cbn [app].
    destruct (N.eqb_spec c MINUS) as [->|_]; [discriminate|].
    destruct (N.eqb_spec c ZERO) as [|_]; [contradiction|].
    change (c :: tl ++ rest) with ((c :: tl) ++ rest).
    rewrite <- E, (@scan_uint_chars _ rest Hd), (@float_follows_delimited rest Hd), Hn.
    destruct (Pos.to_uint p); [|reflexivity..].
    discriminate.
  - destruct (to_uint_head p) as (c & tl & E & Hc & H0).
    unfold match_number. cbn [app].
    change (N.eqb MINUS MINUS) with true. cbv iota. rewrite E. cbn [app].
    destruct (N.eqb_spec c ZERO) as [|_]; [contradiction|].
    change (c :: tl ++ rest) with ((c :: tl) ++ rest).
    rewrite <- E, (@scan_uint_chars _ rest Hd), (@float_follows_delimited rest Hd), Hn.
    destruct (Pos.to_uint p); [|reflexivity..].
    discriminate.
Qed.

(** The first character of an encoded integer: a minus sign or a digit. *)
Lemma repr_int_head (n : Z) :
  exists c tl, repr_int n = c :: tl /\ (c = MINUS \/ is_digit c = true).
Proof.
  unfold repr_int. destruct n as [|p|p]; cbn [Z.to_int].
  - eexists; eexists. split; [reflexivity|now right].
  - destruct (to_uint_head p) as (c & tl & E & Hc & _).
    exists c, tl. split; [exact E|now right].
  - eexists; eexists. split; [reflexivity|now left].
Qed.

Lemma starts_value_not_ws (c : N) :
  starts_value c ->
  is_ws c = false /\ N.eqb c RBRACKET = false /\ N.eqb c RBRACE = false.
Proof.
  unfold starts_value, is_digit.
  intros [->|[->|[->|[->|[->|[->|[->|H]]]]]]]; try (now vm_compute).
  apply andb_prop in H as [H1 H2].
  apply N.leb_le in H1, H2. unfold ZERO in H1.
  unfold is_ws, RBRACKET, RBRACE.
  repeat match goal with
         | |- context [N.eqb c ?k] => destruct (N.eqb_spec c k); [lia|]
         end.
  now repeat split.
Qed.

Lemma encode_head (level : nat) (v : json) :
  exists c tl, encode level v = c :: tl /\ starts_value c.
Proof.
  unfold starts_value.
  destruct v as [|[|]|n|s|[|x xs]|[|kv kvs]];
    try (eexists; eexists; split; [reflexivity|]; tauto).
  destruct (repr_int_head n) as (c & tl & E & [->|H]).
  - exists MINUS, tl. split; [exact E|]. tauto.
  - exists c, tl. split; [exact E|]. tauto.
Qed.

Lemma skip_ws_newline_indent (level : nat) (c : N) (tl : str) :
  is_ws c = false -> skip_ws (newline_indent level ++ c :: tl) = c :: tl.
Proof.
  intros Hc. unfold newline_indent. cbn [app skip_ws].
  change (is_ws NEWLINE) with true. cbv iota.
  induction (2 * level) as [|n IH]; cbn [repeat app skip_ws].
  - now rewrite Hc.
  - change (is_ws SPACE) with true. cbv iota. exact IH.
Qed.

Lemma skip_ws_head (c : N) (tl : str) :
  is_ws c = false -> skip_ws (c :: tl) = c :: tl.
Proof. intros H. cbn [skip_ws]. now rewrite H. Qed.

Lemma delimited_newline_indent (level : nat) (tl : str) :
  delimited (newline_indent level ++ tl).
Proof. now right. Qed.

(** Unfolding the decoder by one step. *)
Lemma array_items_S (fuel : nat) (s : str) (acc : list json) :
  array_items (S fuel) s acc =
  match scan_once fuel s with
  | None => None
  | Some (x, rest) =>
      match skip_ws rest with
      | [] => None
      | c :: rest' =>
          if N.eqb c RBRACKET then Some (JList (acc ++ [x]), rest')
          else if N.eqb c COMMA then
            array_items fuel (skip_ws rest') (acc ++ [x])
          else None
      end
  end.
Proof. reflexivity. Qed.

Lemma object_items_S (fuel : nat) (s1 : str) (acc : list (str * json)) :
  object_items (S fuel) (QUOTE :: s1) acc =
  match scanstring s1 [] with
  | None => None
  | Some (k, rest) =>
      match skip_ws rest with
      | [] => None
      | c :: rest1 =>
          if N.eqb c COLON then
            match scan_once fuel (skip_ws rest1) with
            | None => None
            | Some (x, rest2) =>
                match skip_ws rest2 with
                | [] => None
                | d :: rest3 =>
                    if N.eqb d RBRACE then
                      Some (JDict (dict_set acc k x), rest3)
                    else if N.eqb d COMMA then
                      object_items fuel (skip_ws rest3) (dict_set acc k x)
                    else None
                end
            end
          else None
      end
  end.
Proof. reflexivity. Qed.

Lemma scan_once_list (fuel : nat) (s1 : str) :
  scan_once (S fuel) (LBRACKET :: s1) =
  match skip_ws s1 with
  | [] => None
  | c' :: s2 =>
      if N.eqb c' RBRACKET then Some (JList [], s2)
      else array_items fuel (c' :: s2) []
  end.
Proof. reflexivity. Qed.

Lemma scan_once_dict (fuel : nat) (s1 : str) :
  scan_once (S fuel) (LBRACE :: s1) =
  match skip_ws s1 with
  | [] => None
  | c' :: s2 =>
      if N.eqb c' RBRACE then Some (JDict [], s2)
      else object_items fuel (c' :: s2) []
  end.
Proof. reflexivity. Qed.

Lemma scan_once_int (fuel : nat) (n : Z) (rest : str) :
  delimited rest ->
  scan_once (S fuel) (repr_int n ++ rest) = Some (JInt n, rest).
Proof.
  intros Hd. rewrite <- (@match_number_repr n rest Hd).
  destruct (repr_int_head n) as (c & tl & -> & Hc).
  cbn [app scan_once].
  assert (H : N.eqb c QUOTE = false /\ N.eqb c LBRACE = false /\
              N.eqb c LBRACKET = false /\ N.eqb 110 c = false /\
              N.eqb 116 c = false /\ N.eqb 102 c = false).
  { destruct Hc as [->|Hc]; [now vm_compute|].
    unfold is_digit in Hc. apply andb_prop in Hc as [H1 H2].
    apply N.leb_le in H1, H2. unfold ZERO in H1.
    unfold QUOTE, LBRACE, LBRACKET.
    repeat match goal with
           | |- context [N.eqb c ?k] => destruct (N.eqb_spec c k); [lia|]
           | |- context [N.eqb ?k c] => destruct (N.eqb_spec k c); [lia|]
           end.
    now repeat split. }
  destruct H as (-> & -> & -> & Hn & Ht & Hf).
  change (py "null") with [110; 117; 108; 108]%N.
  change (py "true") with [116; 114; 117; 101]%N.
  change (py "false") with [102; 97; 108; 115; 101]%N.
  cbn [starts_with].
  rewrite Hn, Ht, Hf. reflexivity.
Qed.

Lemma join_head (sep : str) (x : str) (xs : list str) (c : N) (tl : str) :
  x = c :: tl -> exists tl', join sep (x :: xs) = c :: tl'.
Proof.
  intros ->. destruct xs as [|y ys]; cbn [join app]; eexists; reflexivity.
Qed.

Lemma join_cons (sep x y : str) (l : list str) :
  join sep (x :: y :: l) = x ++ sep ++ join sep (y :: l).
Proof. reflexivity. Qed.

(** The items of a list, from the first on, read back in order. *)
Lemma array_items_ok (level : nat) (rest : str) (items : list json) :
  forall fuel acc,
    items <> [] ->
    list_sum (map (fun x => S (size x)) items) <= fuel ->
    Forall reads_back items ->
    array_items fuel
      (join (COMMA :: newline_indent (S level))
         (map (encode (S level)) items) ++
       newline_indent level ++ RBRACKET :: rest) acc =
    Some (JList (acc ++ items), rest).
Proof.
  induction items as [|x xs IH]; intros fuel acc Hne Hfuel Hall;
    [congruence|].
  inversion Hall as [|? ? Hx Hxs]; subst.
  cbn [map list_sum] in Hfuel.
  destruct fuel as [|fuel]; [cbn in Hfuel; lia|].
  rewrite array_items_S.
  destruct xs as [|y ys].
  - cbn [map join]. rewrite Hx;
      [|cbn in Hfuel; lia|apply delimited_newline_indent].
    rewrite skip_ws_newline_indent by reflexivity.
    reflexivity.
  - change (map (encode (S level)) (x :: y :: ys))
      with (encode (S level) x :: encode (S level) y ::
            map (encode (S level)) ys).
    rewrite join_cons. rewrite <- !app_assoc. cbn [app].
    rewrite Hx; [|cbn in Hfuel; lia|now left].
    rewrite skip_ws_head by reflexivity.
    change (N.eqb COMMA RBRACKET) with false.
    change (N.eqb COMMA COMMA) with true. cbv iota.
    destruct (encode_head (S level) y) as (c & tl & Ey & Hc).
    destruct (@join_head (COMMA :: newline_indent (S level))
                (encode (S level) y) (map (encode (S level)) ys) c tl Ey)
      as (tl' & Ej).
    pose proof (IH fuel (acc ++ [x])) as IH'.
    change (map (encode (S level)) (y :: ys))
      with (encode (S level) y :: map (encode (S level)) ys) in IH'.
    rewrite Ej in IH' |- *. cbn [app] in IH' |- *.
    rewrite skip_ws_newline_indent
      by (now destruct (starts_value_not_ws Hc)).
    rewrite IH'; [|discriminate|cbn in Hfuel |- *; lia|exact Hxs].
    now rewrite <- app_assoc.
Qed.

Lemma str_eqb_eq (a b : str) : str_eqb a b = true <-> a = b.
Proof.
  revert b. induction a as [|x a IH]; intros [|y b]; cbn [str_eqb];
    try (split; [discriminate|congruence]); [tauto|].
  rewrite andb_true_iff, N.eqb_eq, IH. split.
  - now intros [-> ->].
  - intros E. now injection E.
Qed.

(** Setting a key that is not there adds it at the end. *)
Lemma dict_set_fresh (items : list (str * json)) (k : str) (v : json) :
  ~ In k (map fst items) -> dict_set items k v = items ++ [(k, v)].
Proof.
  induction items as [|[k' v'] items IH]; intros Hk; [reflexivity|].
  cbn [dict_set app]. cbn [map fst In] in Hk.
  destruct (str_eqb k' k) eqn:E.
  - apply str_eqb_eq in E. tauto.
  - rewrite IH by tauto. reflexivity.
Qed.

(** The items of a dictionary, from the first on, read back in order. *)
Lemma object_items_ok (level : nat) (rest : str) (items : list (str * json)) :
  forall fuel acc,
    items <> [] ->
    list_sum (map (fun kv => match kv with
                             | (_, x) => S (size x)
                             end) items) <= fuel ->
    Forall (fun kv => reads_back (snd kv)) items ->
    NoDup (map fst acc ++ map fst items) ->
    object_items fuel
      (join (COMMA :: newline_indent (S level))
         (map (encode_member (S level)) items) ++
       newline_indent level ++ RBRACE :: rest) acc =
    Some (JDict (acc ++ items), rest).
Proof.
  induction items as [|[k x] kvs IH]; intros fuel acc Hne Hfuel Hall Hnd;
    [congruence|].
  inversion Hall as [|? ? Hx Hxs]; subst. cbn [snd] in Hx.
  cbn [map list_sum] in Hfuel.
  destruct fuel as [|fuel]; [cbn in Hfuel; lia|].
  assert (Hfresh : ~ In k (map fst acc)).
  { cbn [map fst] in Hnd. apply NoDup_remove_2 in Hnd.
    intros Hin. apply Hnd, in_or_app. now left. }
  assert (Hnd' : NoDup (map fst (acc ++ [(k, x)]) ++ map fst kvs)).
  { rewrite map_app, <- app_assoc. exact Hnd. }
  assert (Hkey : forall tail,
             object_items (S fuel)
               (encode_member (S level) (k, x) ++ tail) acc =
             match scan_once fuel (encode (S level) x ++ tail) with
             | None => None
             | Some (x', rest2) =>
                 match skip_ws rest2 with
                 | [] => None
                 | d :: rest3 =>
                     if N.eqb d RBRACE then
                       Some (JDict (dict_set acc k x'), rest3)
                     else if N.eqb d COMMA then
                       object_items fuel (skip_ws rest3) (dict_set acc k x')
                     else None
                 end
             end).
  { intros tail. unfold encode_member, encode_basestring.
    rewrite <- !app_assoc. cbn [app].
    rewrite object_items_S, scanstring_escape. cbn [app].
    rewrite skip_ws_head by reflexivity.
    change (N.eqb COLON COLON) with true. cbv iota.
    destruct (encode_head (S level) x) as (c & tl & -> & Hc).
    cbn [skip_ws]. change (is_ws SPACE) with true. cbv iota.
    cbn [app]. rewrite skip_ws_head
      by (now destruct (starts_value_not_ws Hc)).
    reflexivity. }
  destruct kvs as [|kv' kvs'].
  - cbn [map join]. rewrite Hkey, Hx;
      [|cbn in Hfuel; lia|apply delimited_newline_indent].
    rewrite skip_ws_newline_indent by reflexivity.
    change (N.eqb RBRACE RBRACE) with true. cbv iota.
    now rewrite dict_set_fresh.
  - change (map (encode_member (S level)) ((k, x) :: kv' :: kvs'))
      with (encode_member (S level) (k, x) ::
            encode_member (S level) kv' ::
            map (encode_member (S level)) kvs').
    rewrite join_cons. rewrite <- !app_assoc.
    rewrite Hkey. cbn [app]. rewrite Hx; [|cbn in Hfuel; lia|now left].
    rewrite skip_ws_head by reflexivity.
    change (N.eqb COMMA RBRACE) with false.
    change (N.eqb COMMA COMMA) with true. cbv iota.
    rewrite dict_set_fresh by exact Hfresh.
    pose proof (IH fuel (acc ++ [(k, x)])) as IH'.
    change (map (encode_member (S level)) (kv' :: kvs'))
      with (encode_member (S level) kv' ::
            map (encode_member (S level)) kvs') in IH'.
    assert (Ej : exists tl', join (COMMA :: newline_indent (S level))
                   (encode_member (S level) kv' ::
                    map (encode_member (S level)) kvs') =
                 QUOTE :: tl').
    { destruct kv' as [k' x'].
      eapply join_head. unfold encode_member, encode_basestring.
      cbn [app]. reflexivity. }
    destruct Ej as (tl' & Ej). rewrite Ej in IH' |- *.
    cbn [app] in IH' |- *.
    rewrite skip_ws_newline_indent by reflexivity.
    rewrite IH'; [|discriminate|cbn in Hfuel |- *; lia|exact Hxs|exact Hnd'].
    now rewrite <- app_assoc.
Qed.

Lemma encode_list_cons (level : nat) (x : json) (xs : list json) :
  encode level (JList (x :: xs)) =
  LBRACKET :: newline_indent (S level) ++
  join (COMMA :: newline_indent (S level))
    (map (encode (S level)) (x :: xs)) ++
  newline_indent level ++ [RBRACKET].
Proof. reflexivity. Qed.

Lemma encode_dict_cons (level : nat) (kv : str * json)
  (kvs : list (str * json)) :
  encode level (JDict (kv :: kvs)) =
  LBRACE :: newline_indent (S level) ++
  join (COMMA :: newline_indent (S level))
    (map (encode_member (S level)) (kv :: kvs)) ++
  newline_indent level ++ [RBRACE].
Proof. reflexivity. Qed.

(** Every value without a repeated key reads back as itself. *)
Lemma wf_reads_back (v : json) : wf v -> reads_back v.
Proof.
  induction v as [|b|n|s|items IH|items IH] using json_induction;
    intros Hwf fuel level rest Hsize Hd;
    (destruct fuel as [|fuel]; [cbn in Hsize; lia|]).
  - reflexivity.
  - destruct b; reflexivity.
  - apply scan_once_int, Hd.
  - apply scan_once_string.
  - inversion Hwf as [| | | |? Hitems|]; subst.
    assert (Hall : Forall reads_back items).
    { rewrite Forall_forall in *. intros x Hx. apply IH; auto. }
    destruct items as [|x xs]; [reflexivity|].
    rewrite encode_list_cons. cbn [app]. rewrite scan_once_list.
    destruct (encode_head (S level) x) as (c & tl & Ex & Hc).
    destruct (@join_head (COMMA :: newline_indent (S level))
                (encode (S level) x) (map (encode (S level)) xs) c tl Ex)
      as (tl' & Ej).
    pose proof (@array_items_ok level rest (x :: xs) fuel []) as H.
    change (map (encode (S level)) (x :: xs))
      with (encode (S level) x :: map (encode (S level)) xs) in H |- *.
    rewrite <- !app_assoc. rewrite Ej in H |- *. cbn [app] in H |- *.
    destruct (starts_value_not_ws Hc) as (Hws & Hrb & _).
    rewrite skip_ws_newline_indent by exact Hws.
    rewrite Hrb. apply H; [discriminate|cbn in Hsize |- *; lia|exact Hall].
  - inversion Hwf as [| | | | |? Hnd Hitems]; subst.
    assert (Hall : Forall (fun kv => reads_back (snd kv)) items).
    { rewrite Forall_forall in *. intros x Hx. apply IH; auto. }
    destruct items as [|[k x] kvs]; [reflexivity|].
    rewrite encode_dict_cons. cbn [app]. rewrite scan_once_dict.
    pose proof (@object_items_ok level rest ((k, x) :: kvs) fuel []) as H.
    change (map (encode_member (S level)) ((k, x) :: kvs))
      with (encode_member (S level) (k, x) ::
            map (encode_member (S level)) kvs) in H |- *.
    assert (Ej : exists tl', join (COMMA :: newline_indent (S level))
                   (encode_member (S level) (k, x) ::
                    map (encode_member (S level)) kvs) = QUOTE :: tl').
    { eapply join_head. unfold encode_member, encode_basestring.
      cbn [app]. reflexivity. }
    destruct Ej as (tl' & Ej).
    rewrite <- !app_assoc. rewrite Ej in H |- *. cbn [app] in H |- *.
    rewrite skip_ws_newline_indent by reflexivity.
    change (N.eqb QUOTE RBRACE) with false. cbv iota.
    apply H; [discriminate|cbn in Hsize |- *; lia|exact Hall|exact Hnd].
Qed.

Lemma join_length_lower (sep : str) (f : json -> str) (items : list json) :
  Forall (fun x => size x <= length (f x)) items ->
  list_sum (map (fun x => S (size x)) items) <=
  length (join (COMMA :: sep) (map f items)) + 1.
Proof.
  induction items as [|x [|y l] IH]; intros H.
  - cbn. lia.
  - inversion H; subst. cbn. lia.
  - inversion H as [|? ? Hx Hl]; subst. specialize (IH Hl).
    change (map f (x :: y :: l)) with (f x :: f y :: map f l).
    rewrite join_cons. rewrite !length_app.
    change (map f (y :: l)) with (f y :: map f l) in IH.
    cbn [map list_sum fold_right length] in IH |- *. lia.
Qed.

Lemma join_members_length_lower (sep : str) (level : nat)
  (items : list (str * json)) :
  Forall (fun kv => forall l, size (snd kv) <= length (encode l (snd kv)))
    items ->
  list_sum (map (fun kv => match kv with
                           | (_, x) => S (size x)
                           end) items) <=
  length (join (COMMA :: sep) (map (encode_member level) items)) + 1.
Proof.
  induction items as [|[k x] [|kv l] IH]; intros H.
  - cbn. lia.
  - inversion H as [|? ? Hx _]; subst. cbn [snd] in Hx.
    specialize (Hx level). cbn [map list_sum fold_right join].
    unfold encode_member. rewrite !length_app. cbn [length]. lia.
  - inversion H as [|? ? Hx Hl]; subst. cbn [snd] in Hx.
    specialize (Hx level). specialize (IH Hl).
    change (map (encode_member level) ((k, x) :: kv :: l))
      with (encode_member level (k, x) :: encode_member level kv ::
            map (encode_member level) l).
    rewrite join_cons. rewrite !length_app.
    change (map (encode_member level) (kv :: l))
      with (encode_member level kv :: map (encode_member level) l) in IH.
    unfold encode_member at 1. rewrite !length_app.
    cbn [map list_sum fold_right length] in IH |- *. lia.
Qed.

(** The decoder's fuel: a value is never bigger than its text. *)
Lemma size_le_length (v : json) :
  forall level, size v <= length (encode level v).
Proof.
  induction v as [|b|n|s|items IH|items IH] using json_induction;
    intros level.
  - cbn. lia.
  - destruct b; cbn; lia.
  - destruct (repr_int_head n) as (c & tl & E & _).
    cbn [encode size]. rewrite E. cbn. lia.
  - cbn [encode size]. unfold encode_basestring.
    rewrite !length_app. cbn. lia.
  - destruct items as [|x xs]; [cbn; lia|].
    rewrite encode_list_cons. cbn [size length].
    rewrite !length_app.
    pose proof (@join_length_lower (newline_indent (S level))
                  (encode (S level)) (x :: xs)) as H.
    cbn [length]. apply le_n_S.
    etransitivity; [apply H|lia].
    rewrite Forall_forall in *. intros y Hy. now apply IH.
  - destruct items as [|kv kvs]; [cbn; lia|].
    rewrite encode_dict_cons. cbn [size length].
    rewrite !length_app.
    pose proof (@join_members_length_lower (newline_indent (S level))
                  (S level) (kv :: kvs) IH) as H.
    cbn [length]. apply le_n_S.
    etransitivity; [apply H|lia].
Qed.

(** Writing a value and reading the text gives the value back. *)
Lemma loads_encode (v : json) : wf v -> loads (encode 0 v) = Some v.
Proof.
  intros Hwf. unfold loads.
  destruct (encode_head 0 v) as (c & tl & E & Hc).
  destruct (starts_value_not_ws Hc) as (Hws & _).
  pose proof (size_le_length v 0) as Hsize.
  pose proof (@wf_reads_back v Hwf (2 * length (encode 0 v) + 2) 0 [])
    as H.
  rewrite app_nil_r in H.
  rewrite E at 2. rewrite skip_ws_head by exact Hws. rewrite <- E.
  rewrite H; [reflexivity|lia|exact I].
Qed.

Lemma record_keys_NoDup : NoDup record_keys.
Proof.
  unfold record_keys.
  repeat (constructor;
          [cbn [In]; intros H;
           repeat (destruct H as [H|H]; [discriminate H|]); exact H|]).
  constructor.
Qed.

Lemma company_to_json_wf (c : company) : wf (company_to_json c).
Proof.
  unfold company_to_json. constructor.
  - exact record_keys_NoDup.
  - repeat (constructor; [cbn [snd]; try destruct (id c); constructor|]).
    constructor.
Qed.

Lemma to_json_wf (data : list company) : wf (to_json data).
Proof.
  unfold to_json. constructor. apply Forall_forall.
  intros v Hv. apply in_map_iff in Hv as (c & <- & _).
  apply company_to_json_wf.
Qed.

Lemma company_of_to_json (c : company) :
  company_of_json (company_to_json c) = Some c.
Proof. destruct c as [[n|] ? ? ? ? ? ? ? ? ?]; reflexivity. Qed.

Lemma of_to_json (data : list company) : of_json (to_json data) = Some data.
Proof.
  unfold of_json, to_json.
  induction data as [|c data IH]; [reflexivity|].
  cbn [map all_some]. now rewrite company_of_to_json, IH.
Qed.

(** ** Facts about the stripped text of a cell *)

Lemma lstrip_spaces_app (p x : str) :
  forallb Py_UNICODE_ISSPACE p = true -> lstrip (p ++ x) = lstrip x.
Proof.
  induction p as [|c p IH]; [reflexivity|].
  cbn [forallb app lstrip]. intros H. apply andb_prop in H as [Hc Hp].
  rewrite Hc. exact (IH Hp).
Qed.

Lemma lstrip_spaces (p : str) :
  forallb Py_UNICODE_ISSPACE p = true -> lstrip p = [].
Proof.
  intros H. rewrite <- (app_nil_r p). now rewrite lstrip_spaces_app.
Qed.

Lemma forallb_rev (f : N -> bool) (l : str) :
  forallb f l = true -> forallb f (rev l) = true.
Proof.
  rewrite !forallb_forall. intros H x Hx. apply H. now apply in_rev.
Qed.

(** [str.strip] gives the string without the whitespace at its ends, and
    nothing else does. *)
Lemma strip_stripped_of (s t : str) : stripped_of s t -> strip s = t.
Proof.
  intros (p & q & -> & Hp & Hq & Ht). unfold strip.
  rewrite lstrip_spaces_app by exact Hp.
  destruct t as [|c t'].
  - cbn [app]. now rewrite lstrip_spaces.
  - unfold unpadded in Ht. apply andb_prop in Ht as [Hh Hl].
    apply negb_true_iff in Hh. cbn [app lstrip]. rewrite Hh.
    unfold rstrip. change (c :: t' ++ q) with ((c :: t') ++ q).
    rewrite rev_app_distr, lstrip_spaces_app by now apply forallb_rev.
    destruct (rev (c :: t')) as [|d l] eqn:E.
    + apply (f_equal (@length N)) in E. rewrite length_rev in E.
      discriminate E.
    + apply negb_true_iff in Hl. cbn [lstrip]. rewrite Hl, <- E.
      apply rev_involutive.
Qed.

Lemma concat_filter_truthy (ts : list str) :
  concat (filter str_truthy ts) = concat ts.
Proof.
  induction ts as [|[|c t] ts IH]; cbn [filter str_truthy concat];
    [reflexivity|exact IH|].
  now rewrite IH.
Qed.

(** [get_text(strip=True)] gives the stripped text of the cell. *)
Lemma stripped_text_get_text (c : td) (t : str) :
  stripped_text c t -> get_text_strip c = t.
Proof.
  intros (ts & H & ->). unfold get_text_strip.
  rewrite concat_filter_truthy. f_equal.
  induction H as [|s t' ss ts' Hst _ IH]; [reflexivity|].
  cbn [map]. rewrite IH. f_equal. now apply strip_stripped_of.
Qed.

(** A cell with one string, a text between two runs of whitespace. *)
Lemma stripped_text_single (c : td) (p t q : str) :
  strings c = [p ++ t ++ q] ->
  forallb Py_UNICODE_ISSPACE p = true ->
  forallb Py_UNICODE_ISSPACE q = true ->
  unpadded t = true ->
  stripped_text c t.
Proof.
  intros Hs Hp Hq Ht. exists [t]. split.
  - rewrite Hs. constructor; [|constructor]. now exists p, q.
  - cbn [concat]. now rewrite app_nil_r.
Qed.

(** ** The claims *)

(** C1, as the code has it.  In a session that opens and closes, when the
    pages 1 to K render and none of their rows raises, pages 1 to K-1 have
    a next-page link that can be clicked and page K has none,
    [get_companies] makes exactly K extraction passes and returns the
    records of page 1, then those of page 2, and so on up to page K. *)
Theorem get_companies_all_pages (w : session) (K fuel : nat)
  (recs : nat -> list company) :
  opens w -> quit w = Return tt ->
  1 <= K <= fuel ->
  (forall i, 1 <= i <= K -> renders w i (recs i)) ->
  (forall i, 1 <= i < K -> has_next w i) ->
  is_last w K ->
  exists st,
    get_companies fuel w true initial =
      Some (Return (concat (map recs (seq 1 K))), st) /\
    extraction_passes (log st) = K.
Proof.
  intros Ho Hq HK Hr Hn Hl.
  destruct K as [|n]; [lia|].
  destruct (@while_true_to_last w recs n fuel at_loop)
    as (st' & E & Hc & Hp & _).
  - lia.
  - intros i Hi. apply Hr. cbn [shown at_loop] in Hi. lia.
  - intros i Hi. apply Hn. cbn [shown at_loop] in Hi. lia.
  - exact Hl.
  - destruct (@get_companies_after_loop w fuel st' Ho Hq E) as (st & E' & Hp' & _).
    exists st. rewrite E', Hc, Hp', Hp. split; reflexivity.
Qed.

Lemma get_companies_all_pages_witness :
  exists st,
    get_companies 2 Samples.two_pages true initial =
      Some (Return ([Samples.nabil_record] ++
                    [Samples.adbl_record; Samples.unlinked_record] ++ []),
            st) /\
    extraction_passes (log st) = 2.
Proof.
  apply (@get_companies_all_pages Samples.two_pages 2 2
           Samples.two_pages_records).
  - repeat split.
  - reflexivity.
  - lia.
  - intros i Hi. assert (Hc : i = 1 \/ i = 2) by lia.
    destruct Hc as [-> | ->];
      (split; [reflexivity|eexists; split; reflexivity]).
  - intros i Hi. assert (Hc : i = 1) by lia. subst i. reflexivity.
  - reflexivity.
Defined.

(** C1 as stated fails: the table comes up on both pages of the session,
    the first page has a next-page link and the second has none, and the
    run returns no record at all: a row of the second page raises, after
    two extraction passes. *)
Lemma rendered_pages_without_records :
  opens MoreSamples.broken_on_second /\
  quit MoreSamples.broken_on_second = Return tt /\
  table (pages MoreSamples.broken_on_second 1) = Return tt /\
  source (pages MoreSamples.broken_on_second 1) = Return [Samples.nabil] /\
  has_next MoreSamples.broken_on_second 1 /\
  table (pages MoreSamples.broken_on_second 2) = Return tt /\
  source (pages MoreSamples.broken_on_second 2) =
    Return [Samples.adbl; Samples.broken] /\
  is_last MoreSamples.broken_on_second 2 /\
  outcome (get_companies 2 MoreSamples.broken_on_second true initial) =
    Some (Raise ValueError) /\
  option_map (fun x => extraction_passes (log (snd x)))
    (get_companies 2 MoreSamples.broken_on_second true initial) = Some 2.
Proof. repeat split; vm_compute; reflexivity. Qed.

(** C2, as the code has it.  In a session where Chrome starts, the URL
    opens and the browser closes: a timeout of the wait for the table on
    page j, after j-1 pages that rendered and led on, makes [get_companies]
    return the records of those j-1 pages (page 1's records when the table
    fails on page 2); a timeout of the wait for the page-size dropdown is
    not caught and reaches the caller as [TimeoutException]. *)
Theorem get_companies_timeouts (w : session) (fuel : nat) :
  chrome w = Return tt -> navigate w = Return tt -> quit w = Return tt ->
  (page_size_select w = Raise TimeoutException ->
   exists st,
     get_companies fuel w true initial = Some (Raise TimeoutException, st))
  /\
  (page_size_select w = Return (Return tt) ->
   forall (j : nat) (recs : nat -> list company),
     1 <= j <= fuel ->
     (forall i, 1 <= i < j -> renders w i (recs i) /\ has_next w i) ->
     table (pages w j) = Raise TimeoutException ->
     exists st,
       get_companies fuel w true initial =
         Some (Return (concat (map recs (seq 1 (j - 1)))), st)).
Proof.
  intros Hc Hn Hq. split.
  - intros Hs. rewrite (get_companies_started fuel w Hc).
    unfold try_finally, try_block, bind, call. rewrite Hn, Hs, Hq.
    eexists. reflexivity.
  - intros Hs j recs Hj Hr Ht.
    assert (Ho : opens w) by (repeat split; assumption).
    destruct j as [|n]; [lia|].
    destruct (@while_true_to_timeout w recs n fuel at_loop)
      as (st' & E & Hcs & _).
    + lia.
    + intros i Hi. apply Hr. cbn [shown at_loop] in Hi. lia.
    + exact Ht.
    + destruct (@get_companies_after_loop w fuel st' Ho Hq E) as (st & E' & _).
      exists st. rewrite E', Hcs.
      replace (S n - 1) with n by lia. reflexivity.
Qed.

Lemma get_companies_timeouts_witness :
  exists st,
    get_companies 2 Samples.second_page_hangs true initial =
      Some (Return ([Samples.nabil_record] ++ []), st).
Proof.
  destruct (@get_companies_timeouts Samples.second_page_hangs 2)
    as [_ H]; try reflexivity.
  apply (H eq_refl 2 Samples.two_pages_records).
  - lia.
  - intros i Hi. assert (Hc : i = 1) by lia. subst i.
    split; [split; [reflexivity|eexists; split; reflexivity]|reflexivity].
  - reflexivity.
Defined.

(** C2 as stated fails: when the page-size dropdown does not come up in
    time, the caller of [get_companies] gets a [TimeoutException], not the
    records so far (the browser has been closed once by then). *)
Lemma dropdown_timeout_surfaces :
  outcome (get_companies 1 Samples.no_dropdown true initial) =
    Some (Raise TimeoutException) /\
  option_map (fun x => quits (log (snd x)))
    (get_companies 1 Samples.no_dropdown true initial) = Some 1.
Proof. split; vm_compute; reflexivity. Qed.

(** C3, as the code has it.  Extracting a row yields a record or a skip,
    except on a row of eight cells or more whose name cell has a link whose
    href ends in a non-empty piece that [int] rejects: there, and only
    there, the row raises, and what it raises is [ValueError]. *)
Theorem extract_row_total_but_for_id (row : tr) :
  (bad_id row /\ extract_row row = Raise ValueError) \/
  (~ bad_id row /\ exists o, extract_row row = Return o).
Proof.
  destruct (extract_row row) as [o|e] eqn:E.
  - right. split; [|now exists o].
    intros Hb. rewrite (bad_id_raises Hb) in E. discriminate.
  - left. destruct (raise_is_bad_id row E) as [-> Hb]. now split.
Qed.

(** C3 as stated fails: a row whose link ends in [/company/abc] raises
    [ValueError]; the rows after it on the page are not extracted, and the
    error leaves [get_companies]. *)
Lemma broken_row_aborts_page :
  extract_row Samples.broken = Raise ValueError /\
  for_each [Samples.nabil; Samples.broken; Samples.adbl] scrape_row initial =
    Some (Raise ValueError, appended initial [Samples.nabil_record]) /\
  outcome (get_companies 1 Samples.one_broken_row true initial) =
    Some (Raise ValueError).
Proof. repeat split; vm_compute; reflexivity. Qed.

(** C4, as the code has it.  On a page none of whose rows raises, the row
    loop appends exactly one record for each row of eight cells or more and
    ends normally; and on every page, whether a row of it raises or not, a
    row with fewer than eight cells adds no record and raises nothing, and
    the rows with fewer than eight cells make no difference to what the
    loop does. *)
Theorem short_rows_are_skipped (rows : list tr) (st : state) :
  ((forall row e, In row rows -> extract_row row <> Raise e) ->
   exists recs,
     for_each rows scrape_row st = Some (Return tt, appended st recs) /\
     length recs = length (filter (fun row => 8 <=? length row) rows)) /\
  (forall row st',
     length row < 8 -> scrape_row row st' = Some (Return tt, st')) /\
  for_each (filter (fun row => 8 <=? length row) rows) scrape_row st =
  for_each rows scrape_row st.
Proof.
  split; [|split].
  - intros H. destruct (extract_page_no_raise rows H) as (recs & E & Hl).
    exists recs. rewrite for_each_scrape_row, E. now split.
  - intros row st' Hshort. unfold scrape_row, bind, lift.
    now rewrite (extract_row_short row Hshort).
  - now rewrite !for_each_scrape_row, extract_page_filter.
Qed.

Lemma short_rows_are_skipped_witness :
  (exists recs,
     for_each [Samples.nabil; Samples.short_row; Samples.adbl; []]
       scrape_row initial = Some (Return tt, appended initial recs) /\
     length recs = 2) /\
  scrape_row Samples.short_row initial = Some (Return tt, initial) /\
  for_each [Samples.nabil; Samples.adbl] scrape_row initial =
  for_each [Samples.nabil; Samples.short_row; Samples.adbl; []]
    scrape_row initial /\
  for_each [Samples.broken] scrape_row initial =
  for_each [Samples.short_row; Samples.broken] scrape_row initial.
Proof.
  destruct (@short_rows_are_skipped
              [Samples.nabil; Samples.short_row; Samples.adbl; []] initial)
    as (Hcount & Hshort & Hsame).
  split; [|split; [|split]].
  - apply Hcount. intros row e Hin.
    repeat (destruct Hin as [<- | Hin]; [vm_compute; discriminate|]).
    destruct Hin.
  - apply Hshort. apply Nat.ltb_lt. reflexivity.
  - exact Hsame.
  - exact (proj2 (proj2 (@short_rows_are_skipped
                           [Samples.short_row; Samples.broken] initial))).
Defined.

(** C4 as stated fails: a page whose only row has eight cells can yield no
    record at all, and a failure instead. *)
Lemma long_row_without_record :
  length (filter (fun row => 8 <=? length row) [Samples.broken]) = 1 /\
  for_each [Samples.broken] scrape_row initial =
    Some (Raise ValueError, initial).
Proof. split; vm_compute; reflexivity. Qed.



(** C6. For a row of exactly eight cells that yields a record, with the
    stripped texts of cells 1 to 7 known (for each cell: the strings below
    it, each without the whitespace at its two ends, one after the other):
    the string fields of the record are those texts in the positions of
    the dictionary literal ([companyName] and [securityName] from cell 1,
    [symbol] from cell 2, [status] from cell 3, [sectorName] from cell 4,
    [instrumentType] from cell 5, [companyEmail] from cell 6, [website]
    from cell 7), [securityName] equals [companyName], and
    [regulatoryBody] equals [get_regulatory_body] of [sectorName]. *)
Theorem record_fields_from_cells (c0 c1 c2 c3 c4 c5 c6 c7 : td)
  (t1 t2 t3 t4 t5 t6 t7 : str) (r : company) :
  stripped_text c1 t1 -> stripped_text c2 t2 -> stripped_text c3 t3 ->
  stripped_text c4 t4 -> stripped_text c5 t5 -> stripped_text c6 t6 ->
  stripped_text c7 t7 ->
  extract_row [c0; c1; c2; c3; c4; c5; c6; c7] = Return (Some r) ->
  companyName r = t1 /\
  securityName r = t1 /\
  symbol r = t2 /\
  status r = t3 /\
  sectorName r = t4 /\
  instrumentType r = t5 /\
  companyEmail r = t6 /\
  website r = t7 /\
  securityName r = companyName r /\
  regulatoryBody r = get_regulatory_body (sectorName r).
Proof.
  intros H1 H2 H3 H4 H5 H6 H7.
  apply stripped_text_get_text in H1, H2, H3, H4, H5, H6, H7.
  rewrite extract_row_long.
  destruct (company_id_of (find_a c1)) as [cid|]; [|discriminate].
  cbn [rbind]. destruct (id_of cid) as [v|]; [|discriminate].
  cbn [rbind]. intros E. injection E as <-.
  cbn [companyName securityName symbol status sectorName instrumentType
       companyEmail website regulatoryBody].
  rewrite H1, H2, H3, H4, H5, H6, H7. repeat split.
Qed.

Lemma record_fields_from_cells_witness :
  exists r,
    extract_row
      [Samples.cell "1";
       Samples.name_cell "  Nabil Bank Limited "
         (Some (Samples.link_to "/company/detail/131"));
       Samples.cell "NABIL"; Samples.cell " Active ";
       Samples.cell "Commercial Banks"; Samples.cell "Equity";
       Samples.cell "info@example.com"; Samples.cell "www.example.com"] =
    Return (Some r) /\
    companyName r = py "Nabil Bank Limited" /\
    securityName r = py "Nabil Bank Limited" /\
    symbol r = py "NABIL" /\
    status r = py "Active" /\
    sectorName r = py "Commercial Banks" /\
    instrumentType r = py "Equity" /\
    companyEmail r = py "info@example.com" /\
    website r = py "www.example.com" /\
    securityName r = companyName r /\
    regulatoryBody r = py "SEBON".
Proof.
  exists Samples.nabil_record. split; [vm_compute; reflexivity|].
  refine (@record_fields_from_cells
            (Samples.cell "1")
            (Samples.name_cell "  Nabil Bank Limited "
               (Some (Samples.link_to "/company/detail/131")))
            (Samples.cell "NABIL") (Samples.cell " Active ")
            (Samples.cell "Commercial Banks") (Samples.cell "Equity")
            (Samples.cell "info@example.com")
            (Samples.cell "www.example.com")
            (py "Nabil Bank Limited") (py "NABIL") (py "Active")
            (py "Commercial Banks") (py "Equity") (py "info@example.com")
            (py "www.example.com")
            Samples.nabil_record _ _ _ _ _ _ _ _).
  - now apply (@stripped_text_single _ (py "  ") _ (py " ")).
  - now apply (@stripped_text_single _ [] _ []).
  - now apply (@stripped_text_single _ (py " ") _ (py " ")).
  - now apply (@stripped_text_single _ [] _ []).
  - now apply (@stripped_text_single _ [] _ []).
  - now apply (@stripped_text_single _ [] _ []).
  - now apply (@stripped_text_single _ [] _ []).
  - vm_compute. reflexivity.
Defined.

(** C7, as the code has it.  Once Chrome has started, every run of
    [get_companies] that ends, however it ends, has closed the browser
    exactly once; a failure of the devtools command in [init_driver] changes
    nothing in the run; a failure while closing the browser is not passed
    over: it is what the caller gets. *)
Theorem browser_closed_once (w : session) (fuel : nat) :
  chrome w = Return tt ->
  (forall r st,
     get_companies fuel w true initial = Some (r, st) ->
     quits (log st) = 1) /\
  (forall x,
     get_companies fuel (with_cdp w x) true initial =
     get_companies fuel (with_cdp w (Return tt)) true initial) /\
  (forall e r st,
     quit w = Raise e ->
     get_companies fuel w true initial = Some (r, st) ->
     r = Raise e).
Proof.
  intros Hc. repeat split.
  - intros r st. rewrite (get_companies_started fuel w Hc).
    unfold try_finally.
    destruct (try_block fuel w at_try) as [[r0 st0]|] eqn:E; [|discriminate].
    pose proof (@quiet_try_block fuel w _ _ _ E) as Hq0.
    unfold call. cbn [log companies page_no shown].
    destruct (quit w); intros H; injection H as <- <-;
      cbn [log]; rewrite quits_app, Hq0; reflexivity.
  - intros x.
    rewrite (get_companies_started fuel (with_cdp w x) Hc).
    rewrite (get_companies_started fuel (with_cdp w (Return tt)) Hc).
    reflexivity.
  - intros e r st Hq. rewrite (get_companies_started fuel w Hc).
    unfold try_finally.
    destruct (try_block fuel w at_try) as [[r0 st0]|]; [|discriminate].
    unfold call. rewrite Hq. intros H. now injection H as <- <-.
Qed.

Lemma browser_closed_once_witness :
  exists r st,
    get_companies 1 Samples.one_broken_row true initial = Some (r, st) /\
    quits (log st) = 1.
Proof.
  destruct (get_companies 1 Samples.one_broken_row true initial)
    as [[r st]|] eqn:E; [|vm_compute in E; discriminate].
  exists r, st. split; [reflexivity|].
  exact (proj1 (@browser_closed_once Samples.one_broken_row 1 eq_refl) r st E).
Defined.

(** C7 as stated fails: when closing the browser fails, the run is aborted
    by that failure, although the loop has ended and the records are
    there. *)
Lemma quit_failure_surfaces :
  outcome (get_companies 1 Samples.quit_fails true initial) =
    Some (Raise WebDriverException) /\
  option_map (fun x => companies (snd x))
    (get_companies 1 Samples.quit_fails true initial) =
    Some [Samples.nabil_record].
Proof. split; vm_compute; reflexivity. Qed.

(** C8. [get_companies(False)] returns the empty list at once: the state
    is left as it was, so nothing has been done to any browser. *)
Theorem get_companies_disabled (fuel : nat) (w : session) (st : state) :
  get_companies fuel w false st = Some (Return [], st).
Proof. reflexivity. Qed.

(** C9. Whatever the records, the text that [json.dump] writes for them,
    read back, gives dictionaries that are field for field the records
    written, an absent id included (it is written as [null]).  In that
    text every character from the space up, other than the quote and the
    backslash, stands for itself, non-ASCII characters included; the keys
    of a record are written in the order of the dictionary literal; and a
    list that is not empty has each record on lines of its own, two spaces
    in. *)
Theorem dump_load_round_trip (data : list company) :
  (exists v, loads (dump data) = Some v /\ of_json v = Some data) /\
  (forall c, (32 <= c)%N -> c <> QUOTE -> c <> BACKSLASH ->
             escape_char c = [c]) /\
  (forall c, exists items,
     company_to_json c = JDict items /\ map fst items = record_keys) /\
  (forall c rest, exists tl,
     dump (c :: rest) =
     LBRACKET :: NEWLINE :: SPACE :: SPACE :: LBRACE :: NEWLINE :: tl).
Proof.
  repeat split.
  - exists (to_json data). split; [|apply of_to_json].
    apply loads_encode, to_json_wf.
  - intros c Hc Hq Hb. unfold escape_char.
    repeat match goal with
           | |- context [N.eqb c ?k] =>
               destruct (N.eqb_spec c k);
               [first [contradiction|subst c; vm_compute in Hc; congruence]|]
           end.
    destruct (N.ltb_spec c 32); [lia|reflexivity].
  - intros c. eexists. split; reflexivity.
  - intros c rest. unfold dump, to_json. cbn [map].
    rewrite encode_list_cons. cbn [map].
    unfold company_to_json at 1. rewrite encode_dict_cons.
    destruct (map (encode 1) (map company_to_json rest)) as [|y ys].
    + cbn [join app newline_indent repeat Nat.mul Nat.add].
      eexists. reflexivity.
    + rewrite join_cons.
      cbn [join app newline_indent repeat Nat.mul Nat.add].
      eexists. reflexivity.
Qed.

(** C10. For a row of eight cells or more whose name cell has a link whose
    href ends in an empty piece, the record has no id, and it is the very
    record of the same row with the href left out. *)
Theorem empty_last_piece_is_no_id (c0 : td) (ss : list str) (h : str)
  (rest : list td) :
  6 <= length rest ->
  getitem_last (split SLASH h) = Return [] ->
  exists r,
    extract_row
      (c0 :: {| strings := ss; first_a := Some {| href := Some h |} |} :: rest)
      = Return (Some r) /\
    id r = None /\
    extract_row
      (c0 :: {| strings := ss; first_a := Some {| href := None |} |} :: rest)
      = Return (Some r).
Proof.
  intros Hlen Hseg.
  destruct (six_more rest Hlen) as (c2 & c3 & c4 & c5 & c6 & c7 & rest' & ->).
  rewrite !extract_row_long. cbn [find_a first_a].
  assert (E : company_id_of (Some {| href := Some h |}) = Return None \/
              company_id_of (Some {| href := Some h |}) = Return (Some [])).
  { destruct h as [|x h]; [now left|right].
    destruct (@company_id_of_href (x :: h)) as (seg & Hseg' & ->);
      [discriminate|].
    rewrite Hseg in Hseg'. now injection Hseg' as <-. }
  destruct E as [-> | ->]; eexists; repeat split.
Qed.

Lemma empty_last_piece_is_no_id_witness :
  exists r,
    extract_row (Samples.row_of "Trailing" (Some (Samples.link_to "/company/"))
                   "TRL") = Return (Some r) /\
    id r = None /\
    extract_row (Samples.row_of "Trailing" (Some {| href := None |}) "TRL")
      = Return (Some r).
Proof.
  refine (@empty_last_piece_is_no_id (Samples.cell "1") [py "Trailing"]
            (py "/company/") _ _ _).
  - simpl. lia.
  - reflexivity.
Defined.

(** ** Further facts about the loop *)

Section Steps.

Variable R : state -> state -> Prop.
Hypothesis R_refl : forall st, R st st.
Hypothesis R_trans : forall a b c, R a b -> R b c -> R a c.

Lemma steps_ret {A : Type} (a : A) : steps R (ret a).
Proof. intros st r st' H. injection H as <- <-. apply R_refl. Qed.

Lemma steps_read {A : Type} (f : state -> A) :
  steps R (fun st => Some (Return (f st), st)).
Proof. intros st r st' H. injection H as <- <-. apply R_refl. Qed.

Lemma steps_bind {A B : Type} (m : M A) (k : A -> M B) :
  steps R m -> (forall a, steps R (k a)) -> steps R (bind m k).
Proof.
  intros Hm Hk st r st' H. unfold bind in H.
  destruct (m st) as [[[a|e] st1]|] eqn:E; [| |discriminate].
  - exact (R_trans (Hm _ _ _ E) (Hk a _ _ _ H)).
  - injection H as <- <-. exact (Hm _ _ _ E).
Qed.

Lemma steps_try_except {A : Type} (body : M A) (c : exn -> bool)
  (handler : M A) :
  steps R body -> steps R handler -> steps R (try_except body c handler).
Proof.
  intros Hb Hh st r st' H. unfold try_except in H.
  destruct (body st) as [[[a|e] st1]|] eqn:E; [| |discriminate].
  - injection H as <- <-. exact (Hb _ _ _ E).
  - destruct (c e).
    + exact (R_trans (Hb _ _ _ E) (Hh _ _ _ H)).
    + injection H as <- <-. exact (Hb _ _ _ E).
Qed.

Lemma steps_try_finally {A : Type} (body : M A) (cleanup : M unit) :
  steps R body -> steps R cleanup -> steps R (try_finally body cleanup).
Proof.
  intros Hb Hc st r st' H. unfold try_finally in H.
  destruct (body st) as [[r0 st1]|] eqn:E; [|discriminate].
  destruct (cleanup st1) as [[[u|e] st2]|] eqn:E2; [| |discriminate];
    injection H as <- <-;
    exact (R_trans (Hb _ _ _ E) (Hc _ _ _ E2)).
Qed.

Lemma steps_for_each {A : Type} (xs : list A) (body : A -> M unit) :
  (forall x, steps R (body x)) -> steps R (for_each xs body).
Proof.
  intros Hb. induction xs as [|x xs IH]; cbn [for_each].
  - apply steps_ret.
  - apply steps_bind; [apply Hb|intros _; exact IH].
Qed.

Lemma steps_while_true (fuel : nat) (body : M ctl) :
  steps R body -> steps R (while_true fuel body).
Proof.
  intros Hb. induction fuel as [|fuel IH]; cbn [while_true].
  - intros st r st' H. discriminate.
  - apply steps_bind; [exact Hb|]. intros [|]; [apply steps_ret|exact IH].
Qed.

(** What the relation has to allow for the loop to be made of its steps:
    a logged call, the record of a row, a new page number, a new page. *)
Hypothesis R_call : forall st ev, R st (logged st ev).
Hypothesis R_row : forall row, steps R (scrape_row row).
Hypothesis R_page_no :
  forall st n, R st {| companies := companies st; page_no := n;
                       shown := shown st; log := log st |}.
Hypothesis R_shown :
  forall st n, R st {| companies := companies st; page_no := page_no st;
                       shown := n; log := log st |}.

Lemma steps_call {A : Type} (ev : event) (x : result A) :
  steps R (call ev x).
Proof. intros st r st' H. injection H as <- <-. apply R_call. Qed.

Lemma steps_scrape_page (w : session) : steps R (scrape_page w).
Proof.
  unfold scrape_page.
  apply steps_try_except; [|apply steps_ret].
  apply steps_bind; [apply (steps_read (fun st => pages w (shown st)))|].
  intros p. apply steps_bind; [apply steps_call|]. intros _.
  apply steps_bind; [apply steps_call|]. intros rows.
  apply steps_bind; [apply steps_for_each, R_row|]. intros _.
  apply steps_bind; [apply (steps_read page_no)|]. intros n.
  apply steps_bind; [apply steps_call|]. intros _.
  apply steps_bind.
  { intros st r st' H. injection H as <- <-. apply R_page_no. }
  intros _.
  apply steps_try_except; [|apply steps_ret].
  apply steps_bind; [apply steps_call|]. intros next.
  apply steps_bind; [apply steps_call|]. intros _.
  apply steps_bind.
  { intros st r st' H. injection H as <- <-. apply R_shown. }
  intros _.
  apply steps_bind; [apply steps_call|]. intros _.
  apply steps_ret.
Qed.

Lemma steps_try_block (fuel : nat) (w : session) :
  steps R (try_block fuel w).
Proof.
  unfold try_block, loop_and_return.
  apply steps_bind; [apply steps_call|]. intros _.
  apply steps_bind; [apply steps_call|]. intros select.
  apply steps_bind; [apply steps_call|]. intros _.
  apply steps_bind; [apply steps_call|]. intros _.
  apply steps_bind; [apply steps_while_true, steps_scrape_page|]. intros _.
  apply steps_bind; [apply (steps_read companies)|]. intros cs.
  apply steps_bind; [apply steps_call|]. intros _.
  apply steps_ret.
Qed.

End Steps.

(** What one row does to the state. *)
Lemma scrape_row_cases (row : tr) (st : state) (r : result unit)
  (st' : state) :
  scrape_row row st = Some (r, st') ->
  st' = appended st (row_records row).
Proof.
  unfold scrape_row, row_records, bind, lift, get_companies_var,
    set_companies, ret.
  destruct (extract_row row) as [[c|]|e]; intros H; injection H as <- <-;
    try (now rewrite appended_nil).
  reflexivity.
Qed.

(** A turn of the loop that fails before any row is read: at the wait for
    the table, or at the snapshot of the page. *)
Lemma scrape_page_fails_early (w : session) (st : state) (e : exn) :
  table (pages w (shown st)) = Raise e \/
  (table (pages w (shown st)) = Return tt /\
   source (pages w (shown st)) = Raise e) ->
  exists st',
    scrape_page w st =
      Some (if is_TimeoutException e then Return Break else Raise e, st') /\
    companies st' = companies st /\
    quits (log st') = quits (log st).
Proof.
  intros [Ht|[Ht Hs]]; run_page; rewrite Ht; [|rewrite Hs];
    destruct e; end_page.
Qed.

(** A turn of the loop one of whose rows raises. *)
Lemma scrape_page_row_raises (w : session) (st : state) (rows : list tr)
  (cs : list company) (e : exn) :
  table (pages w (shown st)) = Return tt ->
  source (pages w (shown st)) = Return rows ->
  extract_page rows = (cs, Some e) ->
  exists st',
    scrape_page w st =
      Some (if is_TimeoutException e then Return Break else Raise e, st') /\
    companies st' = companies st ++ cs /\
    quits (log st') = quits (log st).
Proof.
  intros Ht Hs Hx. run_page.
  rewrite Ht, Hs, for_each_scrape_row, Hx. destruct e; end_page.
Qed.

(** A turn of the loop on a page that renders, where looking for the
    next-page link, or the click on it, fails. *)
Lemma scrape_page_next_fails (w : session) (st : state) (cs : list company)
  (e : exn) :
  renders w (shown st) cs ->
  next_btn (pages w (shown st)) = Raise e \/
  next_btn (pages w (shown st)) = Return (Raise e) ->
  exists st',
    scrape_page w st =
      Some (if ends_loop_after_page e then Return Break else Raise e, st') /\
    companies st' = companies st ++ cs /\
    quits (log st') = quits (log st).
Proof.
  intros (Ht & rows & Hs & Hx) [Hn|Hn]; run_page;
    rewrite Ht, Hs, for_each_scrape_row, Hx, Hn; destruct e; end_page.
Qed.

(** The loop over [n] pages that lead on and a page on which the turn of
    the loop ends it, with [cs] more records. *)
Lemma while_true_ends (w : session) (recs : nat -> list company)
  (n fuel : nat) (st : state) (r : result ctl) (cs : list company) :
  n < fuel ->
  (forall i, shown st <= i < shown st + n ->
             renders w i (recs i) /\ has_next w i) ->
  r <> Return Continue ->
  (forall st1, shown st1 = shown st + n ->
     exists st',
       scrape_page w st1 = Some (r, st') /\
       companies st' = companies st1 ++ cs /\
       quits (log st') = quits (log st1)) ->
  exists st',
    while_true fuel (scrape_page w) st = Some (loop_outcome r, st') /\
    companies st' =
      companies st ++ concat (map recs (seq (shown st) n)) ++ cs /\
    quits (log st') = quits (log st).
Proof.
  intros Hf H Hr Hlast.
  destruct (@while_true_pages w recs n (fuel - n) st H)
    as (st1 & E1 & Hc1 & Hs1 & _ & Hq1).
  replace (n + (fuel - n)) with fuel in E1 by lia.
  destruct (fuel - n) as [|f] eqn:Ef; [lia|].
  destruct (Hlast st1 Hs1) as (st' & E & Hc & Hq).
  exists st'. split.
  - rewrite E1. cbn [while_true]. unfold bind. rewrite E.
    destruct r as [[|]|e]; [reflexivity|congruence|reflexivity].
  - rewrite Hc, Hc1, Hq, Hq1, <- app_assoc. now split.
Qed.

(** After the loop, however it ended, in a session that opens and
    closes. *)
Lemma get_companies_after_any_loop (w : session) (fuel : nat)
  (r : result unit) (st' : state) :
  opens w -> quit w = Return tt ->
  while_true fuel (scrape_page w) at_loop = Some (r, st') ->
  exists st,
    get_companies fuel w true initial =
      Some (match r with
            | Return _ => Return (companies st')
            | Raise e => Raise e
            end, st) /\
    quits (log st) = S (quits (log st')).
Proof.
  intros Ho Hq E. rewrite (get_companies_opens fuel Ho).
  unfold try_finally, loop_and_return, bind, get_companies_var, call, ret.
  rewrite E, Hq. destruct r as [[]|e]; cbn -[quits];
    (eexists; split; [reflexivity|]); cbn -[quits];
    rewrite !quits_app; cbn; lia.
Qed.

(** The only exception of a row is [ValueError]. *)
Lemma extract_page_raises_ValueError (rows : list tr) (cs : list company)
  (e : exn) :
  extract_page rows = (cs, Some e) -> e = ValueError.
Proof.
  revert cs. induction rows as [|row rows IH]; intros cs; [discriminate|].
  cbn [extract_page].
  destruct (extract_row row) as [[c|]|e'] eqn:E.
  - destruct (extract_page rows) as [cs' oe]. intros H. injection H as _ ->.
    now apply (IH cs').
  - apply IH.
  - intros H. injection H as _ ->. now destruct (raise_is_bad_id row E).
Qed.

(** A page with a row whose id cannot be read raises. *)
Lemma extract_page_bad_row (rows : list tr) (row : tr) :
  In row rows -> bad_id row ->
  exists cs, extract_page rows = (cs, Some ValueError).
Proof.
  intros Hin Hbad. induction rows as [|r rows IH]; [destruct Hin|].
  cbn [extract_page].
  destruct (extract_row r) as [[c|]|e] eqn:E.
  - destruct Hin as [->|Hin];
      [rewrite (bad_id_raises Hbad) in E; discriminate|].
    destruct (IH Hin) as (cs & ->). now eexists.
  - destruct Hin as [->|Hin];
      [rewrite (bad_id_raises Hbad) in E; discriminate|].
    exact (IH Hin).
  - destruct (raise_is_bad_id r E) as [-> _]. now eexists.
Qed.

(** When Chrome does not start, nothing else is done. *)
Lemma get_companies_no_chrome (w : session) (fuel : nat) (e : exn) :
  chrome w = Raise e ->
  get_companies fuel w true initial =
  Some (Raise e, logged initial WebdriverChrome).
Proof.
  intros H. unfold get_companies, init_driver, bind, call. cbn [negb].
  now rewrite H.
Qed.

(** What the [try] block returns is the list in [companies]. *)
Lemma try_block_returns_companies (fuel : nat) (w : session) (st : state)
  (cs : list company) (st' : state) :
  try_block fuel w st = Some (Return cs, st') -> cs = companies st'.
Proof.
  unfold try_block, loop_and_return, bind, call, get_companies_var, ret.
  destruct (navigate w); [|discriminate].
  destruct (page_size_select w) as [[|]|]; try discriminate.
  cbn [companies page_no shown log].
  match goal with
  | |- context [while_true fuel (scrape_page w) ?s] =>
      destruct (while_true fuel (scrape_page w) s) as [[[|] s1]|]
  end; try discriminate.
  intros H. now injection H as <- <-.
Qed.

(** The record of a row has the two fixed fields as they should be. *)
Lemma extract_row_fixed_fields (row : tr) (c : company) :
  extract_row row = Return (Some c) -> fixed_fields c.
Proof.
  destruct (Nat.lt_ge_cases (length row) 8) as [Hs|Hl].
  { rewrite (extract_row_short row Hs). discriminate. }
  destruct (long_row_shape row Hl)
    as (c0 & c1 & c2 & c3 & c4 & c5 & c6 & c7 & rest & ->).
  rewrite extract_row_long.
  destruct (company_id_of (find_a c1)) as [cid|]; [|discriminate].
  cbn [rbind]. destruct (id_of cid) as [v|]; [|discriminate].
  cbn [rbind]. intros E. injection E as <-. now split.
Qed.

Lemma more_records_refl (st : state) : more_records st st.
Proof. exists []. now rewrite app_nil_r. Qed.

Lemma more_records_trans (a b c : state) :
  more_records a b -> more_records b c -> more_records a c.
Proof.
  intros [x Hx] [y Hy]. exists (x ++ y). now rewrite Hy, Hx, app_assoc.
Qed.

Lemma more_log_refl (st : state) : more_log st st.
Proof. exists []. now rewrite app_nil_r. Qed.

Lemma more_log_trans (a b c : state) :
  more_log a b -> more_log b c -> more_log a c.
Proof.
  intros [x Hx] [y Hy]. exists (x ++ y). now rewrite Hy, Hx, app_assoc.
Qed.

Lemma more_records_same (st st' : state) :
  companies st' = companies st -> more_records st st'.
Proof. intros H. exists []. now rewrite app_nil_r. Qed.

Lemma more_log_same (st st' : state) :
  log st' = log st -> more_log st st'.
Proof. intros H. exists []. now rewrite app_nil_r. Qed.

(** The loop only adds records. *)
Lemma more_records_scrape_page (w : session) :
  steps more_records (scrape_page w).
Proof.
  apply steps_scrape_page.
  - apply more_records_refl.
  - apply more_records_trans.
  - intros st ev. now apply more_records_same.
  - intros row st r st' H. rewrite (scrape_row_cases row st H).
    now exists (row_records row).
  - intros st n. now apply more_records_same.
  - intros st n. now apply more_records_same.
Qed.

(** The [try] block only adds calls to the log. *)
Lemma more_log_try_block (fuel : nat) (w : session) :
  steps more_log (try_block fuel w).
Proof.
  apply steps_try_block.
  - apply more_log_refl.
  - apply more_log_trans.
  - intros st ev. now exists [ev].
  - intros row st r st' H. rewrite (scrape_row_cases row st H).
    now apply more_log_same.
  - intros st n. now apply more_log_same.
  - intros st n. now apply more_log_same.
Qed.

(** The [try] block keeps the fixed fields of the records as they should
    be. *)
Lemma fixed_fields_try_block (fuel : nat) (w : session) :
  steps (keeps_records fixed_fields) (try_block fuel w).
Proof.
  apply steps_try_block.
  - intros st H. exact H.
  - intros a b c Hab Hbc H. exact (Hbc (Hab H)).
  - intros st ev H. exact H.
  - intros row st r st' H. rewrite (scrape_row_cases row st H).
    intros Hall. cbn [appended companies]. apply Forall_app. split; [exact Hall|].
    unfold row_records.
    destruct (extract_row row) as [[c|]|e] eqn:E; constructor;
      [exact (extract_row_fixed_fields row E)|constructor].
  - intros st n H. exact H.
  - intros st n H. exact H.
Qed.

(** ** Further properties *)

(** X1. When Chrome does not start, [get_companies] raises the error of
    the start, and the start of Chrome is the only call it has made: no
    devtools command, no navigation, and no [quit] on a browser that is not
    there. *)
Theorem chrome_failure_is_raised (w : session) (fuel : nat) (e : exn) :
  chrome w = Raise e ->
  get_companies fuel w true initial =
  Some (Raise e, logged initial WebdriverChrome).
Proof. apply get_companies_no_chrome. Qed.

Lemma chrome_failure_is_raised_witness :
  get_companies 1 MoreSamples.no_chrome true initial =
  Some (Raise WebDriverException, logged initial WebdriverChrome).
Proof.
  exact (@chrome_failure_is_raised MoreSamples.no_chrome 1
           WebDriverException eq_refl).
Defined.

(** X2. Once Chrome has started, an exception of [driver.get], of the wait
    for the page-size dropdown or of the selection of the page size, of
    whatever class, reaches the caller; the browser has been closed once
    by then and no page has been read. *)
Theorem setup_failure_is_raised (w : session) (fuel : nat) (e : exn) :
  chrome w = Return tt -> quit w = Return tt ->
  navigate w = Raise e \/
  (navigate w = Return tt /\ page_size_select w = Raise e) \/
  (navigate w = Return tt /\ page_size_select w = Return (Raise e)) ->
  exists st,
    get_companies fuel w true initial = Some (Raise e, st) /\
    quits (log st) = 1 /\ extraction_passes (log st) = 0.
Proof.
  intros Hc Hq H. rewrite (get_companies_started fuel w Hc).
  unfold try_finally, try_block, bind, call.
  destruct H as [Hn|[[Hn Hs]|[Hn Hs]]]; rewrite Hn, ?Hs, Hq;
    (eexists; split; [reflexivity|split; reflexivity]).
Qed.

Lemma setup_failure_is_raised_witness :
  exists st,
    get_companies 1 MoreSamples.no_site true initial =
      Some (Raise WebDriverException, st) /\
    quits (log st) = 1 /\ extraction_passes (log st) = 0.
Proof.
  apply (@setup_failure_is_raised MoreSamples.no_site 1 WebDriverException);
    [reflexivity|reflexivity|now left].
Defined.

(** X3. After j-1 pages that rendered and led on, on a page j that
    renders: when looking for the next-page link or the click on it raises
    [NoSuchElementException] or [TimeoutException], the run ends normally
    and returns the records of pages 1 to j; when either raises anything
    else, that exception reaches the caller and no record is returned. *)
Theorem next_page_failure (w : session) (fuel j : nat)
  (recs : nat -> list company) (e : exn) :
  opens w -> quit w = Return tt ->
  1 <= j <= fuel ->
  (forall i, 1 <= i < j -> renders w i (recs i) /\ has_next w i) ->
  renders w j (recs j) ->
  next_btn (pages w j) = Raise e \/ next_btn (pages w j) = Return (Raise e) ->
  exists st,
    get_companies fuel w true initial =
    Some (absorbed_or_raised (ends_loop_after_page e)
            (concat (map recs (seq 1 j))) e, st).
Proof.
  intros Ho Hq Hj Hpages Hr Hn.
  destruct j as [|n]; [lia|].
  destruct (@while_true_ends w recs n fuel at_loop
              (if ends_loop_after_page e then Return Break else Raise e)
              (recs (S n)))
    as (st' & E & Hc & _).
  - lia.
  - intros i Hi. apply Hpages. cbn [shown at_loop] in Hi. lia.
  - destruct (ends_loop_after_page e); discriminate.
  - intros st1 Hs1. cbn [shown at_loop] in Hs1.
    apply scrape_page_next_fails; rewrite Hs1; assumption.
  - destruct (@get_companies_after_any_loop w fuel _ st' Ho Hq E)
      as (st & E' & _).
    exists st. rewrite E'. unfold absorbed_or_raised.
    destruct (ends_loop_after_page e); cbn [loop_outcome]; [|reflexivity].
    rewrite Hc. cbn [companies at_loop shown app].
    rewrite seq_S, map_app, concat_app. cbn [map concat].
    now rewrite app_nil_r.
Qed.

Lemma next_page_failure_witness :
  exists st,
    get_companies 1 MoreSamples.click_hangs true initial =
    Some (Return ([Samples.nabil_record] ++ []), st).
Proof.
  apply (@next_page_failure MoreSamples.click_hangs 1 1
           Samples.two_pages_records TimeoutException).
  - repeat split.
  - reflexivity.
  - lia.
  - intros i Hi. lia.
  - split; [reflexivity|eexists; split; reflexivity].
  - now right.
Defined.

(** X4. After j-1 pages that rendered and led on, when the wait for the
    table on page j, or the snapshot of page j, raises an exception other
    than [TimeoutException], that exception reaches the caller and the
    records of the pages before are not returned; a [TimeoutException] of
    either makes the run return the records of pages 1 to j-1. *)
Theorem page_failure (w : session) (fuel j : nat)
  (recs : nat -> list company) (e : exn) :
  opens w -> quit w = Return tt ->
  1 <= j <= fuel ->
  (forall i, 1 <= i < j -> renders w i (recs i) /\ has_next w i) ->
  table (pages w j) = Raise e \/
  (table (pages w j) = Return tt /\ source (pages w j) = Raise e) ->
  exists st,
    get_companies fuel w true initial =
    Some (absorbed_or_raised (is_TimeoutException e)
            (concat (map recs (seq 1 (j - 1)))) e, st).
Proof.
  intros Ho Hq Hj Hpages Hfail.
  destruct j as [|n]; [lia|].
  destruct (@while_true_ends w recs n fuel at_loop
              (if is_TimeoutException e then Return Break else Raise e) [])
    as (st' & E & Hc & _).
  - lia.
  - intros i Hi. apply Hpages. cbn [shown at_loop] in Hi. lia.
  - destruct (is_TimeoutException e); discriminate.
  - intros st1 Hs1. cbn [shown at_loop] in Hs1.
    destruct (@scrape_page_fails_early w st1 e) as (st2 & E2 & Hc2 & Hq2).
    { now rewrite Hs1. }
    exists st2. rewrite app_nil_r. now repeat split.
  - destruct (@get_companies_after_any_loop w fuel _ st' Ho Hq E)
      as (st & E' & _).
    exists st. rewrite E'. unfold absorbed_or_raised.
    destruct (is_TimeoutException e); cbn [loop_outcome]; [|reflexivity].
    rewrite Hc. cbn [companies at_loop shown app].
    replace (S n - 1) with n by lia. now rewrite app_nil_r.
Qed.

Lemma page_failure_witness :
  exists st,
    get_companies 2 MoreSamples.second_page_crashes true initial =
    Some (Raise WebDriverException, st).
Proof.
  apply (@page_failure MoreSamples.second_page_crashes 2 2
           Samples.two_pages_records WebDriverException).
  - repeat split.
  - reflexivity.
  - lia.
  - intros i Hi. assert (Hc : i = 1) by lia. subst i.
    split; [split; [reflexivity|eexists; split; reflexivity]|reflexivity].
  - now left.
Defined.

(** X5. A site on which every page renders and has a next-page link that
    can be clicked keeps the loop going for ever: [get_companies] does not
    return, whatever the number of turns it is given. *)
Theorem endless_pagination (w : session) (recs : nat -> list company) :
  opens w ->
  (forall i, 1 <= i -> renders w i (recs i) /\ has_next w i) ->
  forall fuel, get_companies fuel w true initial = None.
Proof.
  intros Ho H fuel. rewrite (get_companies_opens fuel Ho).
  destruct (@while_true_pages w recs fuel 0 at_loop) as (st' & E & _).
  { intros i Hi. apply H. cbn [shown at_loop] in Hi. lia. }
  rewrite Nat.add_0_r in E.
  unfold try_finally, loop_and_return, bind. now rewrite E.
Qed.

Lemma endless_pagination_witness :
  get_companies 50 MoreSamples.endless true initial = None.
Proof.
  apply (@endless_pagination MoreSamples.endless
           (fun _ => [Samples.nabil_record])).
  - repeat split.
  - intros i _.
    split; [split; [reflexivity|eexists; split; reflexivity]|reflexivity].
Defined.

(** X6. One row whose id cannot be read, on whatever page, costs the whole
    run: after j-1 pages that rendered and led on, a row on page j with a
    link that ends in a non-empty piece that [int] rejects makes
    [get_companies] raise [ValueError], the records of the pages before
    are not returned, and the browser has been closed once. *)
Theorem bad_row_aborts_run (w : session) (fuel j : nat)
  (recs : nat -> list company) (rows : list tr) (row : tr) :
  opens w -> quit w = Return tt ->
  1 <= j <= fuel ->
  (forall i, 1 <= i < j -> renders w i (recs i) /\ has_next w i) ->
  table (pages w j) = Return tt ->
  source (pages w j) = Return rows ->
  In row rows -> bad_id row ->
  exists st,
    get_companies fuel w true initial = Some (Raise ValueError, st) /\
    quits (log st) = 1.
Proof.
  intros Ho Hq Hj Hpages Ht Hs Hin Hbad.
  destruct (@extract_page_bad_row rows row Hin Hbad) as (cs & Hx).
  destruct j as [|n]; [lia|].
  destruct (@while_true_ends w recs n fuel at_loop (Raise ValueError) cs)
    as (st' & E & _ & Hq').
  - lia.
  - intros i Hi. apply Hpages. cbn [shown at_loop] in Hi. lia.
  - discriminate.
  - intros st1 Hs1. cbn [shown at_loop] in Hs1.
    apply (@scrape_page_row_raises w st1 rows cs ValueError);
      [rewrite Hs1; exact Ht|rewrite Hs1; exact Hs|exact Hx].
  - destruct (@get_companies_after_any_loop w fuel _ st' Ho Hq E)
      as (st & E' & Hq'').
    exists st. split; [exact E'|]. now rewrite Hq'', Hq'.
Qed.

Lemma bad_row_aborts_run_witness :
  exists st,
    get_companies 2 MoreSamples.broken_on_second true initial =
      Some (Raise ValueError, st) /\
    quits (log st) = 1.
Proof.
  apply (@bad_row_aborts_run MoreSamples.broken_on_second 2 2
           Samples.two_pages_records [Samples.adbl; Samples.broken]
           Samples.broken).
  - repeat split.
  - reflexivity.
  - lia.
  - intros i Hi. assert (Hc : i = 1) by lia. subst i.
    split; [split; [reflexivity|eexists; split; reflexivity]|reflexivity].
  - reflexivity.
  - reflexivity.
  - right. now left.
  - exists (Samples.cell "1"),
      (Samples.name_cell "Broken" (Some (Samples.link_to "/company/abc"))),
      [Samples.cell "BRK"; Samples.cell " Active ";
       Samples.cell "Commercial Banks"; Samples.cell "Equity";
       Samples.cell "info@example.com"; Samples.cell "www.example.com"],
      (py "/company/abc"), (py "abc").
    split; [reflexivity|]. split; [simpl; lia|].
    split; [reflexivity|]. split; [reflexivity|].
    split; [discriminate|reflexivity].
Defined.

(** X7. Whatever the session, every record that [get_companies] returns
    has [regulatoryBody] equal to [SEBON] and [securityName] equal to its
    [companyName]. *)
Theorem returned_records_have_fixed_fields (fuel : nat) (w : session)
  (pull_latest : bool) (cs : list company) (st : state) :
  get_companies fuel w pull_latest initial = Some (Return cs, st) ->
  Forall fixed_fields cs.
Proof.
  destruct pull_latest.
  - destruct (chrome w) as [[]|e] eqn:Hc.
    + rewrite (get_companies_started fuel w Hc). unfold try_finally.
      destruct (try_block fuel w at_try) as [[r0 st0]|] eqn:E;
        [|discriminate].
      pose proof (@fixed_fields_try_block fuel w at_try r0 st0 E) as Hinv.
      unfold call. destruct (quit w); intros H; [|discriminate].
      injection H as -> _.
      rewrite (try_block_returns_companies fuel w at_try E).
      apply Hinv. constructor.
    + rewrite (get_companies_no_chrome w fuel Hc). discriminate.
  - intros H. injection H as <- _. constructor.
Qed.

Lemma returned_records_have_fixed_fields_witness :
  Forall fixed_fields
    [Samples.nabil_record; Samples.adbl_record; Samples.unlinked_record].
Proof.
  destruct (get_companies 2 Samples.two_pages true initial)
    as [[r st]|] eqn:E; [|vm_compute in E; discriminate].
  apply (@returned_records_have_fixed_fields 2 Samples.two_pages true _ st).
  rewrite E. vm_compute in E. injection E as <- _. reflexivity.
Defined.

(** X8. In every run that ends after Chrome has started, the start of
    Chrome is the first call, the devtools command the second and [quit]
    the last: nothing is asked of the browser before it is there or after
    it has been closed. *)
Theorem quit_is_the_last_call (fuel : nat) (w : session)
  (r : result (list company)) (st : state) :
  chrome w = Return tt ->
  get_companies fuel w true initial = Some (r, st) ->
  exists l,
    log st = WebdriverChrome :: ExecuteCdpCmd :: l ++ [DriverQuit] /\
    quits l = 0.
Proof.
  intros Hc. rewrite (get_companies_started fuel w Hc). unfold try_finally.
  destruct (try_block fuel w at_try) as [[r0 st0]|] eqn:E; [|discriminate].
  destruct (@more_log_try_block fuel w at_try r0 st0 E) as [l Hl].
  pose proof (@quiet_try_block fuel w at_try r0 st0 E) as Hq.
  rewrite Hl, quits_app in Hq. cbn in Hq.
  unfold call. intros H. exists l. split; [|cbn; lia].
  destruct (quit w); injection H as _ <-; cbn [log]; rewrite Hl;
    reflexivity.
Qed.

Lemma quit_is_the_last_call_witness :
  match get_companies 1 Samples.one_broken_row true initial with
  | Some (_, st) =>
      exists l,
        log st = WebdriverChrome :: ExecuteCdpCmd :: l ++ [DriverQuit] /\
        quits l = 0
  | None => False
  end.
Proof.
  destruct (get_companies 1 Samples.one_broken_row true initial)
    as [[r st]|] eqn:E; [|vm_compute in E; discriminate].
  exact (@quit_is_the_last_call 1 Samples.one_broken_row r st eq_refl E).
Defined.

(** X9. The loop only ever adds records at the end of [companies]:
    however it ends, by a return or by an exception, the records that were
    there before are still there, unchanged and in the same places. *)
Theorem loop_only_appends (fuel : nat) (w : session) (st : state)
  (r : result unit) (st' : state) :
  while_true fuel (scrape_page w) st = Some (r, st') ->
  exists cs, companies st' = companies st ++ cs.
Proof.
  apply (@steps_while_true more_records more_records_refl
           more_records_trans fuel (scrape_page w)
           (more_records_scrape_page w)).
Qed.

Lemma loop_only_appends_witness :
  match while_true 1 (scrape_page Samples.one_broken_row)
          (appended at_loop [Samples.unlinked_record]) with
  | Some (_, st') =>
      exists cs, companies st' = [Samples.unlinked_record] ++ cs
  | None => False
  end.
Proof.
  destruct (while_true 1 (scrape_page Samples.one_broken_row)
              (appended at_loop [Samples.unlinked_record]))
    as [[r st']|] eqn:E; [|vm_compute in E; discriminate].
  exact (@loop_only_appends 1 Samples.one_broken_row _ r st' E).
Defined.

(** ** Further facts about [str.strip] *)

Lemma lstrip_suffix (s : str) :
  exists p, s = p ++ lstrip s /\ forallb Py_UNICODE_ISSPACE p = true.
Proof.
  induction s as [|c s IH]; [now exists []|].
  cbn [lstrip]. destruct (Py_UNICODE_ISSPACE c) eqn:E.
  - destruct IH as (p & Hp & Hsp). exists (c :: p). split.
    + cbn [app]. now rewrite <- Hp.
    + cbn [forallb]. now rewrite E, Hsp.
  - now exists [].
Qed.

Lemma lstrip_head (s : str) (c : N) (t : str) :
  lstrip s = c :: t -> Py_UNICODE_ISSPACE c = false.
Proof.
  induction s as [|x s IH]; [discriminate|].
  cbn [lstrip]. destruct (Py_UNICODE_ISSPACE x) eqn:E; [exact IH|].
  intros H. now injection H as <- _.
Qed.

Lemma rstrip_prefix (s : str) :
  exists p, s = rstrip s ++ p /\ forallb Py_UNICODE_ISSPACE p = true.
Proof.
  unfold rstrip. destruct (lstrip_suffix (rev s)) as (p & Hp & Hsp).
  exists (rev p). split.
  - rewrite <- rev_app_distr, <- Hp. now rewrite rev_involutive.
  - rewrite forallb_forall in *. intros x Hx. apply Hsp.
    now apply in_rev.
Qed.

Lemma rstrip_last (s t : str) (c : N) :
  rstrip s = t ++ [c] -> Py_UNICODE_ISSPACE c = false.
Proof.
  unfold rstrip. intros H.
  apply (f_equal (@rev N)) in H.
  rewrite rev_involutive, rev_app_distr in H. cbn [rev app] in H.
  exact (@lstrip_head _ _ _ H).
Qed.

(** What [strip] gives has no whitespace at either end. *)
Lemma strip_tidy (s : str) : tidy (strip s).
Proof.
  unfold strip. split.
  - intros c t H.
    destruct (rstrip_prefix (lstrip s)) as (p & Hp & _).
    rewrite H in Hp. cbn [app] in Hp. exact (@lstrip_head _ _ _ Hp).
  - intros t c H. exact (@rstrip_last _ _ _ H).
Qed.

Lemma tidy_unpadded (t : str) : tidy t -> unpadded t = true.
Proof.
  intros [Hh Hl]. unfold unpadded. apply andb_true_intro. split.
  - destruct t as [|c t']; [reflexivity|].
    now rewrite (Hh c t' eq_refl).
  - destruct (rev t) as [|c l] eqn:E; [reflexivity|].
    assert (Ht : t = rev l ++ [c])
      by (rewrite <- (rev_involutive t), E; reflexivity).
    now rewrite (Hl (rev l) c Ht).
Qed.

(** Every string has its stripped form, which [str.strip] gives. *)
Lemma strip_is_stripped_of (s : str) : stripped_of s (strip s).
Proof.
  destruct (lstrip_suffix s) as (p & Hp & Hsp).
  destruct (rstrip_prefix (lstrip s)) as (q & Hq & Hsq).
  exists p, q. repeat split; [|exact Hsp|exact Hsq|].
  - unfold strip. now rewrite <- Hq.
  - apply tidy_unpadded, strip_tidy.
Qed.

(** Every cell has its stripped text, which [get_text(strip=True)]
    gives. *)
Lemma get_text_strip_stripped_text (c : td) :
  stripped_text c (get_text_strip c).
Proof.
  exists (map strip (strings c)). split.
  - induction (strings c) as [|s ss IH]; constructor;
      [apply strip_is_stripped_of|exact IH].
  - unfold get_text_strip. now rewrite concat_filter_truthy.
Qed.

Lemma lstrip_tidy (s : str) : tidy s -> lstrip s = s.
Proof.
  intros [Hh _]. destruct s as [|c t]; [reflexivity|].
  cbn [lstrip]. now rewrite (Hh c t eq_refl).
Qed.

Lemma rstrip_tidy (s : str) : tidy s -> rstrip s = s.
Proof.
  intros [_ Hl]. unfold rstrip.
  destruct (rev s) as [|c t] eqn:E.
  - apply (f_equal (@rev N)) in E. rewrite rev_involutive in E.
    now subst s.
  - assert (Hs : s = rev t ++ [c]).
    { apply (f_equal (@rev N)) in E. now rewrite rev_involutive in E. }
    cbn [lstrip]. rewrite (Hl _ _ Hs). now rewrite <- E, rev_involutive.
Qed.

(** [strip] leaves a string with no whitespace at either end as it is. *)
Lemma strip_fixed (s : str) : tidy s -> strip s = s.
Proof.
  intros H. unfold strip. rewrite (@lstrip_tidy s H). exact (@rstrip_tidy s H).
Qed.

Lemma tidy_nil : tidy [].
Proof.
  split; [discriminate|]. intros [|x t] c H; discriminate H.
Qed.

Lemma tidy_app (a b : str) :
  a <> [] -> b <> [] -> tidy a -> tidy b -> tidy (a ++ b).
Proof.
  intros Ha Hb [Hah _] [_ Hbl]. split.
  - intros c t H. destruct a as [|x a]; [congruence|].
    injection H as -> _. exact (Hah c a eq_refl).
  - intros t c H.
    destruct (exists_last Hb) as (b' & y & ->).
    rewrite app_assoc in H. apply app_inj_tail in H as [_ <-].
    exact (Hbl b' y eq_refl).
Qed.

Lemma concat_tidy (pieces : list str) :
  Forall (fun p => p <> [] /\ tidy p) pieces -> tidy (concat pieces).
Proof.
  induction pieces as [|p ps IH]; intros H; [exact tidy_nil|].
  inversion H as [|? ? [Hp Ht] Hps]; subst. cbn [concat].
  destruct (concat ps) as [|x r] eqn:E.
  - now rewrite app_nil_r.
  - apply tidy_app; [exact Hp|discriminate|exact Ht|exact (IH Hps)].
Qed.

(** The text of a cell has no whitespace at either end. *)
Lemma get_text_strip_tidy (cell : td) : tidy (get_text_strip cell).
Proof.
  unfold get_text_strip. apply concat_tidy, Forall_forall.
  intros p Hp. apply filter_In in Hp as [Hin Hne].
  apply in_map_iff in Hin as (s & <- & _). split.
  - intros E. rewrite E in Hne. discriminate.
  - apply strip_tidy.
Qed.

(** X10. Every text field that a record takes from the cells of its row
    is a string that [strip] leaves as it is: it has no whitespace at its
    start or at its end, whatever the markup of the cell. *)
Theorem cell_fields_are_stripped (row : tr) (c : company) :
  extract_row row = Return (Some c) ->
  Forall (fun f => strip f = f) (cell_fields c).
Proof.
  destruct (Nat.lt_ge_cases (length row) 8) as [Hs|Hl].
  { rewrite (extract_row_short row Hs). discriminate. }
  destruct (long_row_shape row Hl)
    as (c0 & c1 & c2 & c3 & c4 & c5 & c6 & c7 & rest & ->).
  rewrite extract_row_long.
  destruct (company_id_of (find_a c1)) as [cid|]; [|discriminate].
  cbn [rbind]. destruct (id_of cid) as [v|]; [|discriminate].
  cbn [rbind]. intros E. injection E as <-.
  unfold cell_fields.
  cbn [companyName symbol securityName status sectorName instrumentType
       companyEmail website].
  repeat (constructor; [apply strip_fixed, get_text_strip_tidy|]).
  constructor.
Qed.

Lemma cell_fields_are_stripped_witness :
  Forall (fun f => strip f = f) (cell_fields Samples.nabil_record).
Proof.
  exact (@cell_fields_are_stripped Samples.nabil Samples.nabil_record
           eq_refl).
Defined.

(** ** Further facts about [int] *)

(** [int] reads a run of digits as the number they write. *)
Lemma scan_digits_uint_chars (u : Decimal.uint) :
  forall p acc,
    p <> UNDERSCORE ->
    scan_digits (Some p) acc (uint_chars u) = Some (uint_acc acc u, []).
Proof.
  induction u; intros p acc Hp; cbn [uint_chars scan_digits uint_acc];
    try (change (is_digit 48) with true; change (48 - ZERO)%N with 0%N;
         cbv iota; rewrite N.add_0_r; now apply IHu);
    try (match goal with
         | |- context [is_digit ?c] => change (is_digit c) with true
         end; cbv iota;
         match goal with
         | |- context [(?c - ZERO)%N] =>
             let d := eval vm_compute in (c - ZERO)%N in
             change (c - ZERO)%N with d
         end; now apply IHu).
  unfold end_digits. destruct (N.eqb_spec p UNDERSCORE); [contradiction|].
  reflexivity.
Qed.

Lemma uint_acc_pos (u : Decimal.uint) :
  forall p, uint_acc (Npos p) u = Npos (Pos.of_uint_acc u p).
Proof.
  induction u; intros p; cbn [uint_acc Pos.of_uint_acc];
    [reflexivity|..]; rewrite <- IHu; f_equal; lia.
Qed.

Lemma uint_acc_zero (u : Decimal.uint) : uint_acc 0 u = N.of_uint u.
Proof.
  unfold N.of_uint.
  induction u; cbn [uint_acc Pos.of_uint]; try reflexivity;
    try exact IHu;
    match goal with
    | |- uint_acc ?a _ = _ =>
        let v := eval vm_compute in a in change a with v
    end; apply uint_acc_pos.
Qed.

Lemma uint_chars_ascii (u : Decimal.uint) : is_ascii (uint_chars u) = true.
Proof. induction u; cbn; auto. Qed.

Lemma uint_chars_no_slash (u : Decimal.uint) :
  forallb (fun c => negb (N.eqb c SLASH)) (uint_chars u) = true.
Proof. induction u; cbn; auto. Qed.

Lemma uint_chars_head (u : Decimal.uint) :
  u <> Decimal.Nil ->
  exists c tl, uint_chars u = c :: tl /\ is_digit c = true.
Proof.
  destruct u; [congruence|..]; intros _; eexists; eexists;
    (split; [reflexivity|reflexivity]).
Qed.

Lemma scan_digits_first (u : Decimal.uint) :
  u <> Decimal.Nil ->
  scan_digits None 0 (uint_chars u) = Some (uint_acc 0 u, []).
Proof.
  destruct u; [congruence|..]; intros _;
    cbn [uint_chars scan_digits uint_acc];
    match goal with
    | |- context [is_digit ?c] => change (is_digit c) with true
    end; cbv iota; now rewrite scan_digits_uint_chars by discriminate.
Qed.

Lemma digit_is_no_sign (c : N) :
  is_digit c = true ->
  Py_ISSPACE c = false /\ N.eqb c PLUS = false /\ N.eqb c MINUS = false.
Proof.
  unfold is_digit, Py_ISSPACE, ZERO, SPACE, PLUS, MINUS. intros H.
  apply andb_prop in H as [H1 H2]. apply N.leb_le in H1, H2.
  destruct (N.leb_spec 9 c); [|lia].
  destruct (N.leb_spec c 13); [lia|].
  repeat match goal with
         | |- context [N.eqb c ?k] => destruct (N.eqb_spec c k); [lia|]
         end.
  now repeat split.
Qed.

Lemma count_digits_uint_chars (u : Decimal.uint) :
  count_digits (uint_chars u) = length (uint_chars u).
Proof.
  induction u; cbn [uint_chars count_digits length]; [reflexivity|..];
    match goal with
    | |- context [is_digit ?c] => change (is_digit c) with true
    end; cbv iota; now rewrite IHu.
Qed.

(** [int] on a run of digits. *)
Lemma int_uint_chars (u : Decimal.uint) :
  u <> Decimal.Nil ->
  int (uint_chars u) =
  capped (length (uint_chars u)) (Z.of_N (N.of_uint u)).
Proof.
  intros Hu. destruct (uint_chars_head Hu) as (c & tl & E & Hc).
  destruct (digit_is_no_sign c Hc) as (Hsp & Hplus & Hminus).
  unfold int, to_ascii_digits, capped. rewrite uint_chars_ascii, E.
  cbn [skip_spaces]. rewrite Hsp, Hplus, Hminus, <- E.
  rewrite (scan_digits_first Hu), count_digits_uint_chars.
  cbn [skip_spaces]. now rewrite uint_acc_zero.
Qed.

(** [int] on a minus sign and a run of digits. *)
Lemma int_minus_uint_chars (u : Decimal.uint) :
  u <> Decimal.Nil ->
  int (MINUS :: uint_chars u) =
  capped (length (uint_chars u)) (- Z.of_N (N.of_uint u))%Z.
Proof.
  intros Hu. unfold int, to_ascii_digits, capped.
  assert (Ha : is_ascii (MINUS :: uint_chars u) = true).
  { cbn [is_ascii forallb]. apply (uint_chars_ascii u). }
  rewrite Ha. cbn [skip_spaces].
  change (Py_ISSPACE MINUS) with false. cbv beta iota zeta.
  change (N.eqb MINUS PLUS) with false.
  change (N.eqb MINUS MINUS) with true. cbv beta iota zeta.
  rewrite (scan_digits_first Hu), count_digits_uint_chars.
  cbn [skip_spaces]. now rewrite uint_acc_zero.
Qed.

(** [int(str(n))] is [n], for a number of no more digits than [int]
    takes, and a [ValueError] for a longer one. *)
Lemma int_repr_int (n : Z) :
  int (repr_int n) = capped (decimal_digits n) n.
Proof.
  unfold repr_int, decimal_digits. destruct n as [|p|p]; cbn [Z.to_int].
  - reflexivity.
  - rewrite int_uint_chars by apply DecimalPos.Unsigned.to_uint_nonnil.
    unfold N.of_uint. now rewrite DecimalPos.Unsigned.of_to.
  - rewrite int_minus_uint_chars
      by apply DecimalPos.Unsigned.to_uint_nonnil.
    unfold N.of_uint. now rewrite DecimalPos.Unsigned.of_to.
Qed.

Lemma repr_int_no_slash (n : Z) :
  forallb (fun c => negb (N.eqb c SLASH)) (repr_int n) = true.
Proof.
  unfold repr_int. destruct (Z.to_int n); cbn [forallb];
    apply uint_chars_no_slash.
Qed.

(** X11. For a row of eight cells or more whose name cell has a link
    whose href ends in a slash followed by the decimal digits of an integer
    (after a minus sign if it is negative): when the integer has no more
    digits than [int] takes, 4300, the row yields a record with that
    integer as its id; when it has more, the row raises [ValueError]. *)
Theorem id_of_any_number (c0 name : td) (rest : list td) (prefix : str)
  (n : Z) :
  6 <= length rest ->
  find_a name = Some {| href := Some (prefix ++ SLASH :: repr_int n) |} ->
  (decimal_digits n <= MAX_STR_DIGITS ->
   exists r, extract_row (c0 :: name :: rest) = Return (Some r) /\
             id r = Some n) /\
  (MAX_STR_DIGITS < decimal_digits n ->
   extract_row (c0 :: name :: rest) = Raise ValueError).
Proof.
  intros Hlen Ha.
  assert (Hh : prefix ++ SLASH :: repr_int n <> []).
  { intros E. apply app_eq_nil in E as [_ E]. discriminate. }
  destruct (company_id_of_href Hh) as (seg & Hseg & Hcid).
  rewrite getitem_last_split_suffix in Hseg by apply repr_int_no_slash.
  injection Hseg as <-. rewrite <- Ha in Hcid.
  pose proof (extract_row_id c0 name rest Hlen Hcid) as H.
  assert (Hne : repr_int n <> []).
  { destruct (repr_int_head n) as (c & tl & -> & _). discriminate. }
  rewrite (id_of_truthy Hne), int_repr_int in H. unfold capped in H.
  split; intros Hd.
  - destruct (Nat.ltb_spec MAX_STR_DIGITS (decimal_digits n)) as [Hlt|_];
      [|exact H].
    exfalso. exact (Nat.lt_irrefl _ (Nat.lt_le_trans _ _ _ Hlt Hd)).
  - apply Nat.ltb_lt in Hd. rewrite Hd in H. exact H.
Qed.

Lemma id_of_any_number_witness :
  (exists r,
     extract_row
       (Samples.row_of "Debenture"
          (Some (Samples.link_to "/company/detail/-2049")) "DEB")
       = Return (Some r) /\
     id r = Some (-2049)%Z) /\
  extract_row
    [Samples.cell "1";
     {| strings := [py "Debenture"];
        first_a :=
          Some {| href := Some (py "/company/detail" ++
                                SLASH :: repr_int (- 10 ^ 4300)) |} |};
     Samples.cell "DEB"; Samples.cell " Active ";
     Samples.cell "Commercial Banks"; Samples.cell "Equity";
     Samples.cell "info@example.com"; Samples.cell "www.example.com"]
  = Raise ValueError.
Proof.
  split.
  - refine (proj1 (@id_of_any_number (Samples.cell "1")
              (Samples.name_cell "Debenture"
                 (Some (Samples.link_to "/company/detail/-2049")))
              [Samples.cell "DEB"; Samples.cell " Active ";
               Samples.cell "Commercial Banks"; Samples.cell "Equity";
               Samples.cell "info@example.com";
               Samples.cell "www.example.com"]
              (py "/company/detail") (-2049)%Z _ eq_refl) _).
    + apply Nat.leb_le. vm_compute. reflexivity.
    + apply Nat.leb_le. vm_compute. reflexivity.
  - refine (proj2 (@id_of_any_number (Samples.cell "1")
              {| strings := [py "Debenture"];
                 first_a :=
                   Some {| href := Some (py "/company/detail" ++
                                         SLASH :: repr_int (- 10 ^ 4300)) |} |}
              [Samples.cell "DEB"; Samples.cell " Active ";
               Samples.cell "Commercial Banks"; Samples.cell "Equity";
               Samples.cell "info@example.com";
               Samples.cell "www.example.com"]
              (py "/company/detail") (- 10 ^ 4300)%Z _ eq_refl) _).
    + apply Nat.leb_le. vm_compute. reflexivity.
    + apply Nat.ltb_lt. vm_compute. reflexivity.
Defined.

(** ** Further facts about the encoder *)

Lemma escape_char_plain (c : N) : forallb plain (escape_char c) = true.
Proof.
  unfold escape_char.
  repeat match goal with
         | |- context [if N.eqb c ?k then _ else _] =>
             destruct (N.eqb c k); [reflexivity|]
         end.
  destruct (N.ltb_spec c 32) as [Hlt|Hge].
  - assert (Hin : In c (map N.of_nat (seq 0 32))).
    { replace c with (N.of_nat (N.to_nat c)) by apply N2Nat.id.
      apply in_map, in_seq. lia. }
    revert Hin. generalize c. apply Forall_forall.
    repeat (constructor; [now vm_compute|]). constructor.
  - cbn [forallb]. unfold plain. apply N.leb_le in Hge. now rewrite Hge.
Qed.

Lemma flat_map_plain (s : str) :
  forallb plain (flat_map escape_char s) = true.
Proof.
  induction s as [|c s IH]; [reflexivity|].
  cbn [flat_map]. now rewrite forallb_app, escape_char_plain, IH.
Qed.

Lemma encode_basestring_plain (s : str) :
  forallb plain (encode_basestring s) = true.
Proof.
  unfold encode_basestring.
  now rewrite !forallb_app, flat_map_plain.
Qed.

Lemma uint_chars_plain (u : Decimal.uint) :
  forallb plain (uint_chars u) = true.
Proof. induction u; cbn; auto. Qed.

Lemma repr_int_plain (n : Z) : forallb plain (repr_int n) = true.
Proof.
  unfold repr_int. destruct (Z.to_int n); cbn [forallb];
    apply uint_chars_plain.
Qed.

Lemma newline_indent_plain (level : nat) :
  forallb plain (newline_indent level) = true.
Proof.
  unfold newline_indent. cbn [forallb].
  induction (2 * level) as [|k IH]; [reflexivity|exact IH].
Qed.

Lemma join_plain (sep : str) (chunks : list str) :
  forallb plain sep = true ->
  Forall (fun x => forallb plain x = true) chunks ->
  forallb plain (join sep chunks) = true.
Proof.
  intros Hsep H. induction chunks as [|x [|y l] IH].
  - reflexivity.
  - now inversion H.
  - inversion H as [|? ? Hx Hl]; subst. rewrite join_cons.
    now rewrite !forallb_app, Hx, Hsep, (IH Hl).
Qed.

(** The text of a value has no control character but the line feed. *)
Lemma encode_plain (v : json) :
  forall level, forallb plain (encode level v) = true.
Proof.
  induction v as [|b|n|s|items IH|items IH] using json_induction;
    intros level.
  - reflexivity.
  - destruct b; reflexivity.
  - apply repr_int_plain.
  - apply encode_basestring_plain.
  - destruct items as [|x xs]; [reflexivity|].
    rewrite encode_list_cons. cbn [forallb].
    rewrite !forallb_app, !newline_indent_plain. cbn [forallb andb].
    rewrite join_plain; [reflexivity| |].
    + cbn [forallb]. now rewrite newline_indent_plain.
    + apply Forall_forall. intros t Ht.
      apply in_map_iff in Ht as (y & <- & Hy).
      rewrite Forall_forall in IH. now apply IH.
  - destruct items as [|kv kvs]; [reflexivity|].
    rewrite encode_dict_cons. cbn [forallb].
    rewrite !forallb_app, !newline_indent_plain. cbn [forallb andb].
    rewrite join_plain; [reflexivity| |].
    + cbn [forallb]. now rewrite newline_indent_plain.
    + apply Forall_forall. intros t Ht.
      apply in_map_iff in Ht as ([k y] & <- & Hy).
      rewrite Forall_forall in IH. specialize (IH _ Hy). cbn [snd] in IH.
      unfold encode_member.
      now rewrite !forallb_app, encode_basestring_plain, IH.
Qed.

(** X12. Two lists of records that [json.dump] writes as the same text are
    the same list: nothing of a record is lost in the text. *)
Theorem dump_is_injective (a b : list company) :
  dump a = dump b -> a = b.
Proof.
  intros H.
  assert (E : Some (to_json a) = Some (to_json b)).
  { rewrite <- (loads_encode (to_json_wf a)),
            <- (loads_encode (to_json_wf b)).
    exact (f_equal loads H). }
  assert (E' : to_json a = to_json b) by congruence.
  apply (f_equal of_json) in E'.
  rewrite !of_to_json in E'. congruence.
Qed.

Lemma dump_is_injective_witness :
  [Samples.nabil_record; Samples.unlinked_record] =
  [Samples.record_of (Some 131%Z) "Nabil Bank Limited" "NABIL";
   Samples.record_of None "Unlinked" "UNL"].
Proof.
  apply dump_is_injective. reflexivity.
Defined.

(** X13. Whatever is in the records, the text that [json.dump] writes has
    no character below U+0020 in it other than the line feeds of its
    layout: a tab, a carriage return or any other such character inside a
    field is written as an escape.  (U+007F and the characters above it are
    written as they are.) *)
Theorem dump_escapes_characters_below_space (data : list company) (c : N) :
  In c (dump data) -> (c < 32)%N -> c = NEWLINE.
Proof.
  intros Hin Hlt.
  pose proof (encode_plain (to_json data) 0) as H.
  rewrite forallb_forall in H. specialize (H c Hin).
  unfold plain in H. apply orb_prop in H as [H|H].
  - apply N.leb_le in H. lia.
  - now apply N.eqb_eq.
Qed.

Lemma dump_escapes_characters_below_space_witness :
  In 10%N (dump [MoreSamples.control_record]) /\ 10%N = NEWLINE.
Proof.
  assert (Hin : In 10%N (dump [MoreSamples.control_record]))
    by (vm_compute; tauto).
  split; [exact Hin|].
  apply (@dump_escapes_characters_below_space
           [MoreSamples.control_record] 10%N Hin).
  reflexivity.
Defined.

(** ** Further properties of the rows *)

Lemma extract_page_in_row_order (rows : list tr) :
  (forall row e, In row rows -> extract_row row <> Raise e) ->
  exists cs,
    extract_page rows = (cs, None) /\
    Forall2 (fun row c => extract_row row = Return (Some c))
      (filter (fun row => 8 <=? length row) rows) cs.
Proof.
  induction rows as [|row rows IH]; intros H.
  - exists []. split; [reflexivity|constructor].
  - destruct IH as (cs & E & Hcs).
    { intros r e Hr. apply H. now right. }
    cbn [extract_page filter].
    destruct (Nat.leb_spec 8 (length row)) as [Hlong|Hshort].
    + pose proof (extract_row_long_not_skipped row Hlong) as Hsome.
      destruct (extract_row row) as [[c|]|e] eqn:Er.
      * exists (c :: cs). rewrite E. split; [reflexivity|].
        constructor; [exact Er|exact Hcs].
      * congruence.
      * exfalso. apply (H row e); [now left|exact Er].
    + rewrite (extract_row_short row Hshort). exists cs. now split.
Qed.

(** X14. On a page none of whose rows raises, the row loop appends one
    record for each row of eight cells or more, the record that the row
    yields, and these records stand in [companies] in the order of their
    rows in the page. *)
Theorem page_records_in_row_order (rows : list tr) (st : state) :
  (forall row e, In row rows -> extract_row row <> Raise e) ->
  exists cs,
    for_each rows scrape_row st = Some (Return tt, appended st cs) /\
    Forall2 (fun row c => extract_row row = Return (Some c))
      (filter (fun row => 8 <=? length row) rows) cs.
Proof.
  intros H. destruct (extract_page_in_row_order rows H) as (cs & E & Hcs).
  exists cs. now rewrite for_each_scrape_row, E.
Qed.

Lemma page_records_in_row_order_witness :
  exists cs,
    for_each [Samples.adbl; Samples.short_row; Samples.nabil] scrape_row
      initial = Some (Return tt, appended initial cs) /\
    Forall2 (fun row c => extract_row row = Return (Some c))
      [Samples.adbl; Samples.nabil] cs.
Proof.
  apply (@page_records_in_row_order
           [Samples.adbl; Samples.short_row; Samples.nabil] initial).
  intros row e Hin.
  repeat (destruct Hin as [<- | Hin]; [vm_compute; discriminate|]).
  destruct Hin.
Defined.

(** ** Properties of the state that a run keeps *)

Section Invariants.

Variable I : state -> Prop.

(** The property is one of the log and of the page counter. *)
Hypothesis I_state :
  forall st st', log st' = log st -> page_no st' = page_no st ->
                 I st -> I st'.
Hypothesis I_call : forall st ev, benign ev = true -> I st -> I (logged st ev).
Hypothesis I_snapshot :
  forall st, I st -> I (logged (logged st TABLE_WAIT) DriverPageSource).
Hypothesis I_print : forall st, I st -> I (page_printed st).

Lemma keeps_refl (st : state) : keeps I st st.
Proof. intros H. exact H. Qed.

Lemma keeps_trans (a b c : state) : keeps I a b -> keeps I b c -> keeps I a c.
Proof. intros Hab Hbc H. exact (Hbc (Hab H)). Qed.

Lemma keeps_call {A : Type} (ev : event) (x : result A) :
  benign ev = true -> steps (keeps I) (call ev x).
Proof.
  intros Hev st r st' H. injection H as <- <-. intros Hst.
  change (I (logged st ev)). now apply I_call.
Qed.

Lemma keeps_row (row : tr) : steps (keeps I) (scrape_row row).
Proof.
  intros st r st' H. rewrite (scrape_row_cases row st H). intros Hst.
  eapply I_state; [| |exact Hst]; reflexivity.
Qed.

(** The wait for the table and the snapshot, as the loop makes them. *)
Lemma keeps_snapshot {A : Type} (x : result unit) (y : result (list tr))
  (rest : list tr -> M A) :
  (forall rows, steps (keeps I) (rest rows)) ->
  steps (keeps I)
    (call TABLE_WAIT x ;; rows <- call DriverPageSource y ;; rest rows)%M.
Proof.
  intros Hrest st r st' H. unfold bind at 1 2, call in H.
  destruct x as [[]|e].
  - destruct y as [rows|e].
    + apply Hrest in H. intros Hst. apply H.
      change (I (logged (logged st TABLE_WAIT) DriverPageSource)).
      now apply I_snapshot.
    + injection H as <- <-. intros Hst.
      change (I (logged (logged st TABLE_WAIT) DriverPageSource)).
      now apply I_snapshot.
  - injection H as <- <-. intros Hst.
    change (I (logged st TABLE_WAIT)). now apply I_call.
Qed.

(** The progress line and the step of the page counter. *)
Lemma keeps_print {A : Type} (rest : M A) :
  steps (keeps I) rest ->
  steps (keeps I)
    (n <- get_page_no ;; call (PrintScraped n) (Return tt) ;;
     set_page_no (n + 1) ;; rest)%M.
Proof.
  intros Hrest st r st' H.
  unfold bind at 1 2 3, get_page_no, call, set_page_no in H.
  cbn [companies page_no shown log] in H.
  apply Hrest in H. intros Hst. apply H.
  change (I (page_printed st)). now apply I_print.
Qed.

Lemma keeps_scrape_page (w : session) : steps (keeps I) (scrape_page w).
Proof.
  unfold scrape_page.
  apply (@steps_try_except (keeps I) keeps_trans);
    [|apply (@steps_ret (keeps I) keeps_refl)].
  apply (@steps_bind (keeps I) keeps_trans);
    [apply (@steps_read (keeps I) keeps_refl _
              (fun st => pages w (shown st)))|].
  intros p.
  apply (@keeps_snapshot _ (table p) (source p)
           (fun rows =>
              (for_each rows scrape_row ;;
               n <- get_page_no ;; call (PrintScraped n) (Return tt) ;;
               set_page_no (n + 1) ;;
               try_except
                 (next <- call (DriverFindElement By_CSS_SELECTOR
                                  (py "li.pagination-next a")) (next_btn p) ;;
                  call ElementClick next ;;
                  turn_page ;;
                  call (TimeSleep 3) (Return tt) ;;
                  ret Continue)
                 is_NoSuchElementException
                 (ret Break))%M)).
  intros rows.
  apply (@steps_bind (keeps I) keeps_trans);
    [apply (@steps_for_each (keeps I) keeps_refl keeps_trans), keeps_row|].
  intros _. apply keeps_print.
  apply (@steps_try_except (keeps I) keeps_trans);
    [|apply (@steps_ret (keeps I) keeps_refl)].
  apply (@steps_bind (keeps I) keeps_trans);
    [apply keeps_call; reflexivity|].
  intros next.
  apply (@steps_bind (keeps I) keeps_trans);
    [apply keeps_call; reflexivity|].
  intros _.
  apply (@steps_bind (keeps I) keeps_trans).
  { intros st r st' H. injection H as <- <-. intros Hst.
    eapply I_state; [| |exact Hst]; reflexivity. }
  intros _.
  apply (@steps_bind (keeps I) keeps_trans);
    [apply keeps_call; reflexivity|].
  intros _. apply (@steps_ret (keeps I) keeps_refl).
Qed.

Lemma keeps_try_block (fuel : nat) (w : session) :
  steps (keeps I) (try_block fuel w).
Proof.
  unfold try_block, loop_and_return.
  apply (@steps_bind (keeps I) keeps_trans);
    [apply keeps_call; reflexivity|].
  intros _.
  apply (@steps_bind (keeps I) keeps_trans);
    [apply keeps_call; reflexivity|].
  intros select.
  apply (@steps_bind (keeps I) keeps_trans);
    [apply keeps_call; reflexivity|].
  intros _.
  apply (@steps_bind (keeps I) keeps_trans);
    [apply keeps_call; reflexivity|].
  intros _.
  apply (@steps_bind (keeps I) keeps_trans);
    [apply (@steps_while_true (keeps I) keeps_refl keeps_trans),
       keeps_scrape_page|].
  intros _.
  apply (@steps_bind (keeps I) keeps_trans);
    [apply (@steps_read (keeps I) keeps_refl _ companies)|].
  intros cs.
  apply (@steps_bind (keeps I) keeps_trans);
    [apply keeps_call; reflexivity|].
  intros _. apply (@steps_ret (keeps I) keeps_refl).
Qed.

(** A property that holds when the [try] block is entered holds at the end
    of the run. *)
Lemma keeps_run (fuel : nat) (w : session) (r : result (list company))
  (st : state) :
  I at_try ->
  chrome w = Return tt ->
  get_companies fuel w true initial = Some (r, st) ->
  I st.
Proof.
  intros H0 Hc. rewrite (get_companies_started fuel w Hc).
  unfold try_finally.
  destruct (try_block fuel w at_try) as [[r0 st0]|] eqn:E; [|discriminate].
  pose proof (@keeps_try_block fuel w at_try r0 st0 E H0) as H1.
  unfold call. intros H.
  assert (Hst : st = logged st0 DriverQuit)
    by (destruct (quit w); now injection H as _ <-).
  rewrite Hst. now apply I_call.
Qed.

End Invariants.

Lemma printed_pages_app (l l' : list event) :
  printed_pages (l ++ l') = printed_pages l ++ printed_pages l'.
Proof. apply flat_map_app. Qed.

Lemma counts_pages_state (st st' : state) :
  log st' = log st -> page_no st' = page_no st ->
  counts_pages st -> counts_pages st'.
Proof. unfold counts_pages. intros -> ->. trivial. Qed.

Lemma counts_pages_call (st : state) (ev : event) :
  benign ev = true -> counts_pages st -> counts_pages (logged st ev).
Proof.
  unfold counts_pages. cbn [logged log page_no]. intros Hev [Hp Hn].
  split; [|exact Hn]. rewrite printed_pages_app, Hp.
  destruct ev; try discriminate; apply app_nil_r.
Qed.

Lemma counts_pages_snapshot (st : state) :
  counts_pages st ->
  counts_pages (logged (logged st TABLE_WAIT) DriverPageSource).
Proof.
  unfold counts_pages. cbn [logged log page_no]. intros [Hp Hn].
  split; [|exact Hn]. rewrite !printed_pages_app, Hp.
  cbn. now rewrite !app_nil_r.
Qed.

Lemma counts_pages_print (st : state) :
  counts_pages st -> counts_pages (page_printed st).
Proof.
  unfold counts_pages. cbn [page_printed log page_no]. intros [Hp Hn].
  split; [|lia]. rewrite printed_pages_app, Hp.
  replace (page_no st + 1 - 1) with (S (page_no st - 1)) by lia.
  rewrite seq_S. cbn [printed_pages flat_map app]. do 2 f_equal. lia.
Qed.

Lemma waits_first_snoc (l : list event) (ev : event) :
  ev <> DriverPageSource -> waits_first l -> waits_first (l ++ [ev]).
Proof.
  intros Hne H l1 l2. induction l2 as [|x l2 _] using rev_ind; intros E.
  - apply app_inj_tail in E as [_ E]. contradiction.
  - change (l1 ++ DriverPageSource :: l2 ++ [x])
      with (l1 ++ (DriverPageSource :: l2) ++ [x]) in E.
    rewrite app_assoc in E. apply app_inj_tail in E as [E _].
    exact (H l1 l2 E).
Qed.

Lemma waits_first_pair (l : list event) :
  waits_first l -> waits_first ((l ++ [TABLE_WAIT]) ++ [DriverPageSource]).
Proof.
  intros H l1 l2. induction l2 as [|x l2 _] using rev_ind; intros E.
  - apply app_inj_tail in E as [E _]. now exists l.
  - change (l1 ++ DriverPageSource :: l2 ++ [x])
      with (l1 ++ (DriverPageSource :: l2) ++ [x]) in E.
    rewrite app_assoc in E. apply app_inj_tail in E as [E _].
    assert (Hw : waits_first (l ++ [TABLE_WAIT]))
      by (apply waits_first_snoc; [discriminate|exact H]).
    exact (Hw l1 l2 E).
Qed.

Lemma waits_first_call (st : state) (ev : event) :
  benign ev = true -> waits_first (log st) ->
  waits_first (log (logged st ev)).
Proof.
  intros Hev H. cbn [logged log]. apply waits_first_snoc; [|exact H].
  intros ->. discriminate.
Qed.

Lemma waits_first_print (st : state) :
  waits_first (log st) -> waits_first (log (page_printed st)).
Proof.
  intros H. cbn [page_printed log]. apply waits_first_snoc; [|exact H].
  discriminate.
Qed.

Lemma waits_first_short (l : list event) :
  extraction_passes l = 0 -> waits_first l.
Proof.
  intros H l1 l2 E. rewrite E in H. unfold extraction_passes in H.
  rewrite filter_app, length_app in H. cbn in H. lia.
Qed.

(** What the [try] block logs last when it returns. *)
Lemma try_block_count_line (fuel : nat) (w : session) (st : state)
  (cs : list company) (st' : state) :
  try_block fuel w st = Some (Return cs, st') ->
  exists l, log st' = l ++ [PrintFetched (length cs)].
Proof.
  unfold try_block, loop_and_return.
  unfold bind at 1 2 3 4, call at 1 2 3 4.
  destruct (navigate w) as [[]|e]; [|discriminate].
  destruct (page_size_select w) as [select|e]; [|discriminate].
  destruct select as [[]|e]; [|discriminate].
  unfold bind at 1.
  match goal with
  | |- context [while_true fuel (scrape_page w) ?s] =>
      destruct (while_true fuel (scrape_page w) s) as [[[[]|e] st1]|];
        [| discriminate | discriminate]
  end.
  unfold bind, get_companies_var, call, ret. intros H.
  injection H as <- <-. now exists (log st1).
Qed.

(** X15. The progress lines that a run prints carry the page numbers 1, 2,
    3 and so on, in that order, with no number left out or printed twice,
    however the run ends. *)
Theorem progress_lines_count_up (fuel : nat) (w : session)
  (pull_latest : bool) (r : result (list company)) (st : state) :
  get_companies fuel w pull_latest initial = Some (r, st) ->
  exists k, printed_pages (log st) = seq 1 k.
Proof.
  destruct pull_latest.
  - destruct (chrome w) as [[]|e] eqn:Hc.
    + intros H. exists (page_no st - 1).
      refine (proj1 (@keeps_run counts_pages counts_pages_state
                       counts_pages_call counts_pages_snapshot
                       counts_pages_print fuel w r st _ Hc H)).
      split; [reflexivity|apply le_n].
    + rewrite (get_companies_no_chrome w fuel Hc). intros H.
      injection H as _ <-. now exists 0.
  - intros H. injection H as _ <-. now exists 0.
Qed.

Lemma progress_lines_count_up_witness :
  exists k,
    printed_pages
      [WebdriverChrome; ExecuteCdpCmd;
       DriverGet (py "https://nepalstock.com/company");
       WaitUntilPresent By_XPATH PAGE_SIZE_XPATH;
       SelectByValue (py "500"); TimeSleep 2;
       TABLE_WAIT; DriverPageSource; PrintScraped 1;
       DriverFindElement By_CSS_SELECTOR (py "li.pagination-next a");
       ElementClick; TimeSleep 3;
       TABLE_WAIT; DriverPageSource; PrintScraped 2;
       DriverFindElement By_CSS_SELECTOR (py "li.pagination-next a");
       PrintFetched 3; DriverQuit] = seq 1 k.
Proof.
  destruct (get_companies 2 Samples.two_pages true initial)
    as [[r st]|] eqn:E; [|vm_compute in E; discriminate].
  destruct (@progress_lines_count_up 2 Samples.two_pages true r st E)
    as [k Hk].
  exists k. rewrite <- Hk. vm_compute in E. injection E as _ <-.
  reflexivity.
Defined.

(** X16. When [get_companies] returns, the last line it has printed gives
    the number of records it returns, and closing the browser is all it
    does after that. *)
Theorem count_line_is_the_number_returned (fuel : nat) (w : session)
  (cs : list company) (st : state) :
  get_companies fuel w true initial = Some (Return cs, st) ->
  exists l, log st = l ++ [PrintFetched (length cs); DriverQuit].
Proof.
  destruct (chrome w) as [[]|e] eqn:Hc.
  - rewrite (get_companies_started fuel w Hc). unfold try_finally.
    destruct (try_block fuel w at_try) as [[r0 st0]|] eqn:E;
      [|discriminate].
    unfold call. destruct (quit w); intros H; [|discriminate].
    injection H as -> <-.
    destruct (@try_block_count_line fuel w at_try cs st0 E) as [l Hl].
    exists l. cbn [log]. rewrite Hl, <- app_assoc. reflexivity.
  - rewrite (get_companies_no_chrome w fuel Hc). discriminate.
Qed.

Lemma count_line_is_the_number_returned_witness :
  match get_companies 2 Samples.second_page_hangs true initial with
  | Some (Return cs, st) =>
      exists l, log st = l ++ [PrintFetched (length cs); DriverQuit]
  | _ => False
  end.
Proof.
  destruct (get_companies 2 Samples.second_page_hangs true initial)
    as [[[cs|e] st]|] eqn:E; try (vm_compute in E; discriminate).
  exact (@count_line_is_the_number_returned 2 Samples.second_page_hangs
           cs st E).
Defined.

(** X17. A run never takes a snapshot of the page without having waited
    for the table just before: in the log of every run that ends, each
    read of [driver.page_source] comes right after a wait for the table. *)
Theorem table_wait_before_every_snapshot (fuel : nat) (w : session)
  (pull_latest : bool) (r : result (list company)) (st : state)
  (l1 l2 : list event) :
  get_companies fuel w pull_latest initial = Some (r, st) ->
  log st = l1 ++ DriverPageSource :: l2 ->
  exists l0, l1 = l0 ++ [WaitUntilPresent By_TAG_NAME (py "table")].
Proof.
  intros H. revert l1 l2. change (waits_first (log st)).
  destruct pull_latest.
  - destruct (chrome w) as [[]|e] eqn:Hc.
    + refine (@keeps_run (fun s => waits_first (log s)) _ waits_first_call
                (fun s => @waits_first_pair (log s)) waits_first_print
                fuel w r st _ Hc H).
      * intros s s' Hl _. now rewrite Hl.
      * now apply waits_first_short.
    + rewrite (get_companies_no_chrome w fuel Hc) in H.
      injection H as _ <-. now apply waits_first_short.
  - injection H as _ <-. now apply waits_first_short.
Qed.

Lemma table_wait_before_every_snapshot_witness :
  exists l0,
    [WebdriverChrome; ExecuteCdpCmd;
     DriverGet (py "https://nepalstock.com/company");
     WaitUntilPresent By_XPATH PAGE_SIZE_XPATH;
     SelectByValue (py "500"); TimeSleep 2;
     WaitUntilPresent By_TAG_NAME (py "table")] =
    l0 ++ [WaitUntilPresent By_TAG_NAME (py "table")].
Proof.
  destruct (get_companies 1 Samples.one_broken_row true initial)
    as [[r st]|] eqn:E; [|vm_compute in E; discriminate].
  apply (@table_wait_before_every_snapshot 1 Samples.one_broken_row true
           r st _ [DriverQuit] E).
  vm_compute in E. injection E as _ <-. reflexivity.
Defined.
